(** * Figure/table region extraction (scripts/extract_figures.py)

    A shallow embedding of the extractor: caption grammar, page helpers,
    boundary resolution, the three-pass trimmer and the orchestrating
    loop of [run], followed by the properties established about them.

    Modelling conventions.
    - Page coordinates are Python floats in the source; they are modelled
      as exact integers ([Z]), so [+ 3], [max], [<] are the exact
      operations and no rounding is represented.
    - Text is a [string] of characters with code points below 256;
      [is_space] and [lower] are Python's [str.isspace] / [str.lower]
      restricted to that range.
    - The PDF and imaging libraries are outside the repository.  A page is
      a record holding what the source asks of it (its rectangle, its text
      blocks, its drawings and a renderer); the colour-to-gray conversion
      of the trimmer is a parameter. *)

From Stdlib Require Import ZArith Ascii String List Bool Lia.
From stdpp Require Import gmap strings list fin_maps sorting.
Import ListNotations.
Local Open Scope string_scope.
Local Open Scope list_scope.
Local Open Scope Z_scope.

(** ** Characters and strings *)

Module Text.

Definition code (c : ascii) : nat := nat_of_ascii c.

Definition in_range (lo hi : nat) (c : ascii) : bool :=
  (Nat.leb lo (code c)) && (Nat.leb (code c) hi).

(** [str.isspace] on code points below 256; the same set is what [\s]
    matches in a [str] pattern. *)
Definition is_space (c : ascii) : bool :=
  in_range 9 13 c || in_range 28 32 c
  || Nat.eqb (code c) 133 || Nat.eqb (code c) 160.

(** [\d] on code points below 256. *)
Definition is_digit (c : ascii) : bool := in_range 48 57 c.

(** [str.lower] on one character (code points below 256). *)
Definition lower_char (c : ascii) : ascii :=
  if in_range 65 90 c then ascii_of_nat (code c + 32)
  else if in_range 192 222 c && negb (Nat.eqb (code c) 215)
       then ascii_of_nat (code c + 32)
       else c.

Fixpoint lower (s : string) : string :=
  match s with
  | EmptyString => EmptyString
  | String c r => String (lower_char c) (lower r)
  end.

Fixpoint lstrip (s : string) : string :=
  match s with
  | String c r => if is_space c then lstrip r else s
  | EmptyString => EmptyString
  end.

(** Drop trailing white space: a character is kept when something
    non-blank follows it or it is itself non-blank. *)
Fixpoint rstrip (s : string) : string :=
  match s with
  | EmptyString => EmptyString
  | String c r =>
      match rstrip r with
      | EmptyString => if is_space c then EmptyString else String c EmptyString
      | r' => String c r'
      end
  end.

(** [text.strip()] *)
Definition strip (s : string) : string := rstrip (lstrip s).

(** [kw in s] *)
Fixpoint contains (kw s : string) : bool :=
  String.prefix kw s ||
  match s with
  | EmptyString => false
  | String _ r => contains kw r
  end.

(** The first [n] characters of [s]. *)
Fixpoint take (n : nat) (s : string) : string :=
  match n, s with
  | S m, String c r => String c (take m r)
  | _, _ => EmptyString
  end.

(** Python truthiness of a string. *)
Definition nonempty (s : string) : bool :=
  match s with EmptyString => false | _ => true end.

End Text.

(** ** A small backtracking matcher for the patterns of the source

    Only the constructs the three patterns use: a case-insensitive
    literal, a character class, sequence, ordered alternation, greedy
    [?], greedy [+] over a character class, and a capturing group.  All
    patterns are compiled with [re.IGNORECASE] and used through
    [pattern.match], which anchors at the start of the text. *)

Module Re.

Inductive re : Type :=
| Lit (s : string)               (* literal, given in lower case *)
| Cls (p : ascii -> bool)        (* one character of a class *)
| Seq (a b : re)
| Alt (a b : re)
| Opt (a : re)                   (* a? , greedy *)
| Plus (p : ascii -> bool)       (* [p]+ , greedy *)
| Grp (n : nat) (a : re).        (* capturing group number n *)

(** The groups captured so far, most recent first. *)
Definition caps := list (nat * string).

Fixpoint lit_k {A} (l s : string) (k : string -> option A) : option A :=
  match l with
  | EmptyString => k s
  | String lc lr =>
      match s with
      | String c r =>
          if Ascii.eqb (Text.lower_char c) lc then lit_k lr r k else None
      | EmptyString => None
      end
  end.

(** Zero or more characters of the class, longest first. *)
Fixpoint star_k {A} (p : ascii -> bool) (s : string)
         (k : string -> option A) : option A :=
  match s with
  | String c r =>
      if p c then
        match star_k p r k with
        | Some x => Some x
        | None => k s
        end
      else k s
  | EmptyString => k s
  end.

Definition plus_k {A} (p : ascii -> bool) (s : string)
           (k : string -> option A) : option A :=
  match s with
  | String c r => if p c then star_k p r k else None
  | EmptyString => None
  end.

Fixpoint go (r : re) (s : string) (cs : caps)
         (k : string -> caps -> option caps) : option caps :=
  match r with
  | Lit l => lit_k l s (fun s' => k s' cs)
  | Cls p =>
      match s with
      | String c s' => if p c then k s' cs else None
      | EmptyString => None
      end
  | Seq a b => go a s cs (fun s' cs' => go b s' cs' k)
  | Alt a b =>
      match go a s cs k with
      | Some x => Some x
      | None => go b s cs k
      end
  | Opt a =>
      match go a s cs k with
      | Some x => Some x
      | None => k s cs
      end
  | Plus p => plus_k p s (fun s' => k s' cs)
  | Grp n a =>
      go a s cs (fun s' cs' =>
        k s' ((n, Text.take (String.length s - String.length s') s) :: cs'))
  end.

(** [pattern.match(text)]: the captured groups of the first match found,
    or [None]. *)
Definition match_ (r : re) (text : string) : option caps :=
  go r text [] (fun _ cs => Some cs).

Definition matches (r : re) (text : string) : bool :=
  match match_ r text with Some _ => true | None => false end.

(** [m.group(n)] *)
Fixpoint group (n : nat) (cs : caps) : string :=
  match cs with
  | [] => EmptyString
  | (i, s) :: r => if Nat.eqb i n then s else group n r
  end.

Definition seqs (l : list re) : re :=
  fold_right Seq (Lit EmptyString) l.

Definition alts (a : re) (l : list re) : re :=
  fold_left Alt l a.

Definition chr (c : ascii) : ascii -> bool := Ascii.eqb c.

End Re.
Import Re.

(** ** A declarative reading of the patterns *)

Module ReSpec.

(** Every character of [s] is in the class [p]. *)
Fixpoint all_chars (p : ascii -> bool) (s : string) : bool :=
  match s with
  | EmptyString => true
  | String c r => p c && all_chars p r
  end.

(** [matched r cs x cs']: the pattern [r] matches exactly the text [x],
    taking the captured groups from [cs] to [cs']. *)
Inductive matched : re -> caps -> string -> caps -> Prop :=
| m_lit l x cs :
    Text.lower x = l -> matched (Lit l) cs x cs
| m_cls (p : ascii -> bool) c cs :
    p c = true -> matched (Cls p) cs (String c EmptyString) cs
| m_seq a b cs x cs1 y cs2 :
    matched a cs x cs1 -> matched b cs1 y cs2 ->
    matched (Seq a b) cs (String.append x y) cs2
| m_alt_l a b cs x cs' :
    matched a cs x cs' -> matched (Alt a b) cs x cs'
| m_alt_r a b cs x cs' :
    matched b cs x cs' -> matched (Alt a b) cs x cs'
| m_opt_some a cs x cs' :
    matched a cs x cs' -> matched (Opt a) cs x cs'
| m_opt_none a cs :
    matched (Opt a) cs EmptyString cs
| m_plus (p : ascii -> bool) x cs :
    x <> EmptyString -> all_chars p x = true -> matched (Plus p) cs x cs
| m_grp n a cs x cs' :
    matched a cs x cs' -> matched (Grp n a) cs x ((n, x) :: cs').

(** The first character of a text is a period or white space. *)
Definition opens_blank (s : string) : Prop :=
  exists c r, s = String c r /\ (c = "."%char \/ Text.is_space c = true).

End ReSpec.
Import ReSpec.

(** ** Caption patterns *)

Definition ZOOM : Z := 4.

(** [^(Figure|Table)\s+(\d+)[\.\s]] *)
Definition CAPTION_RE_MAIN : re :=
  seqs [ Grp 1 (Alt (Lit "figure") (Lit "table"));
         Plus Text.is_space;
         Grp 2 (Plus Text.is_digit);
         Cls (fun c => chr "." c || Text.is_space c) ].

(** [^(Fig(?:ure)?|Table)\.?\s+(S?\d+)(?:\.|\s+[^(\s])] *)
Definition CAPTION_RE_SI : re :=
  seqs [ Grp 1 (Alt (Seq (Lit "fig") (Opt (Lit "ure"))) (Lit "table"));
         Opt (Cls (chr "."));
         Plus Text.is_space;
         Grp 2 (Seq (Opt (Lit "s")) (Plus Text.is_digit));
         Alt (Cls (chr "."))
             (Seq (Plus Text.is_space)
                  (Cls (fun c => negb (chr "(" c || Text.is_space c)))) ].

(** [^(?:Supplementary\s+(?:Figure|Table|Note|Text|Method|Discussion|Information)|S\d+\.\s+\S)] *)
Definition SI_SECTION_RE : re :=
  Alt (seqs [ Lit "supplementary";
              Plus Text.is_space;
              alts (Lit "figure")
                   [ Lit "table"; Lit "note"; Lit "text"; Lit "method";
                     Lit "discussion"; Lit "information" ] ])
      (seqs [ Lit "s";
              Plus Text.is_digit;
              Cls (chr ".");
              Plus Text.is_space;
              Cls (fun c => negb (Text.is_space c)) ]).

(** ** Geometry and the page accessor *)

(** [fitz.Rect]: corner coordinates, y growing downwards. *)
Record Rect : Type := mkRect { x0 : Z; y0 : Z; x1 : Z; y1 : Z }.

(** [Rect.width] and [Rect.height] are properties of the PDF library:
    the extent along the axis, and 0 for an inverted rectangle. *)
Definition width (r : Rect) : Z := Z.max 0 (x1 r - x0 r).
Definition height (r : Rect) : Z := Z.max 0 (y1 r - y0 r).

(** One tuple of [page.get_text("blocks")]: [b[0..3]] is the rectangle
    (x0, y0, x1, y1) and [b[4]] the text. *)
Record Block : Type := mkBlock { b0 : Z; b1 : Z; b2 : Z; b3 : Z; b4 : string }.

(** One dict of [page.get_drawings()]: the value under ["dashes"] (absent
    for some drawings) and the one under ["rect"]. *)
Record Drawing : Type := mkDrawing { dashes : option string; drect : Rect }.

(** [fitz.Matrix(a, d)]: a scaling. *)
Definition Matrix : Type := (Z * Z)%type.

(** What a call does: it returns a value or raises. *)
Inductive outcome (A : Type) : Type :=
| Returned (a : A)
| IndexError.
Arguments Returned {A} a.
Arguments IndexError {A}.

Section Extractor.

(** A pixel of the rendered buffer and [cv2.cvtColor(_, COLOR_BGR2GRAY)]
    on one pixel; both belong to the imaging library. *)
Context {Pixel : Type} (gray_of : Pixel -> Z).

(** A numpy array of shape (h, w, 3), as its list of rows. *)
Definition Image : Type := list (list Pixel).

(** [img.shape[0]] and [img.shape[1]].  (The width of an array without
    rows is not represented; the trimmer returns [None] on such an array
    whatever its width.) *)
Definition shape0 {A} (img : list (list A)) : nat := length img.
Definition shape1 {A} (img : list (list A)) : nat :=
  match img with
  | row :: _ => length row
  | [] => 0%nat
  end.

(** A page: [page.rect], [page.get_text("blocks")], [page.get_drawings()]
    and [page.get_pixmap(matrix=, clip=)] followed by the reshaping of its
    samples into a three-channel array. *)
Record Page : Type := mkPage {
  rect : Rect;
  get_text_blocks : list Block;
  get_drawings : list Drawing;
  get_pixmap : Matrix -> Rect -> Image
}.

Definition Document : Type := list Page.

(** ** Image trimming *)

(** Python [l[a:b]] for [0 <= a] and [0 <= b]. *)
Definition slice {A} (a b : nat) (l : list A) : list A :=
  firstn (b - a) (skipn a l).

(** [img[r0:r1, c0:c1]] *)
Definition crop {A} (r0 r1 c0 c1 : nat) (img : list (list A)) : list (list A) :=
  map (slice c0 c1) (slice r0 r1 img).

(** [img[i, j]], when both indices are in range. *)
Definition pixel_at {A} (img : list (list A)) (i j : nat) : option A :=
  match img !! i with
  | Some row => row !! j
  | None => None
  end.

(** An array has rows of one length. *)
Definition rectangular {A} (img : list (list A)) : Prop :=
  Forall (fun row => length row = shape1 img) img.

Definition sumZ (l : list Z) : Z := fold_right Z.add 0 l.

(** [float(row.mean()) < t] and [> t] for a row of 8-bit values: the mean
    is sum/len, compared here without the division.  On an empty row the
    mean is NaN and both comparisons are false. *)
Definition mean_lt (row : list Z) (t : Z) : bool :=
  sumZ row <? t * Z.of_nat (length row).
Definition mean_gt (row : list Z) (t : Z) : bool :=
  sumZ row >? t * Z.of_nat (length row).

(** Pass 1: the loop over [range(h)], from row [r] on, with [break]. *)
Fixpoint dark_rows (dark_row_thresh white_thresh : Z) (rows : list (list Z))
         (r top_start : nat) : nat :=
  match rows with
  | [] => top_start
  | row :: rest =>
      if mean_lt row dark_row_thresh
      then dark_rows dark_row_thresh white_thresh rest (S r) (S r)
      else if mean_gt row (white_thresh - 5)
           then top_start
           else dark_rows dark_row_thresh white_thresh rest (S r) top_start
  end.

(** [np.argwhere(mask)]: the (row, column) indices of the true entries. *)
Definition argwhere (mask : list (list bool)) : list (nat * nat) :=
  concat (imap (fun r row =>
            concat (imap (fun c (v : bool) => if v then [(r, c)] else []) row))
          mask).

Definition min_list (d : nat) (l : list nat) : nat := fold_left Nat.min l d.
Definition max_list (d : nat) (l : list nat) : nat := fold_left Nat.max l d.

(** [coords.min(axis=0)] and [coords.max(axis=0)] of a non-empty array. *)
Definition coords_min (coords : list (nat * nat)) : nat * nat :=
  match coords with
  | [] => (0, 0)%nat
  | (r, c) :: rest => (min_list r (map fst rest), min_list c (map snd rest))
  end.
Definition coords_max (coords : list (nat * nat)) : nat * nat :=
  match coords with
  | [] => (0, 0)%nat
  | (r, c) :: rest => (max_list r (map fst rest), max_list c (map snd rest))
  end.

(** [sub[:, c]] *)
Definition column (c : nat) (sub : list (list Z)) : list Z :=
  omap (fun row : list Z => row !! c) sub.

(** [col.min() < t]; the column is never empty where the source takes
    its minimum. *)
Definition col_min_lt (col : list Z) (t : Z) : bool :=
  match col with
  | [] => false
  | v :: rest => fold_left Z.min rest v <? t
  end.

(** [range(hi, lo, -1)]: hi, hi-1, ..., lo+1. *)
Definition range_down (hi lo : nat) : list nat := rev (seq (S lo) (hi - lo)).

(** [trim_whitespace(img, pad, white_thresh, dark_row_thresh)].
    [None] is the source's [None].  [pad] is a natural number: negative
    pads are never passed. *)
Definition trim_whitespace_with (img : Image)
           (pad : nat) (white_thresh dark_row_thresh : Z) : option Image :=
  let gray := map (map gray_of) img in
  let h := shape0 gray in
  let w := shape1 gray in
  (* Pass 1 *)
  let top_start := dark_rows dark_row_thresh white_thresh gray 0 0 in
  (* Pass 2 *)
  let sub := skipn top_start gray in
  let mask := map (map (fun v => v <? white_thresh)) sub in
  let coords := argwhere mask in
  match coords with
  | [] => None
  | _ =>
      let '(y0, x0) := coords_min coords in
      let '(y1, x1) := coords_max coords in
      let y0 := (y0 + top_start)%nat in
      let y1 := (y1 + top_start)%nat in
      (* Pass 3 *)
      let sub_for_right := skipn top_start gray in
      let right_end :=
        match find (fun c => col_min_lt (column c sub_for_right) 220)
                   (range_down (w - 1) x0) with
        | Some c => c
        | None => x1
        end in
      let x1 := Nat.min (right_end + 12) (w - 1) in
      Some (crop (Nat.max 0 (y0 - pad)) (Nat.min h (y1 + pad + 1))
                 (Nat.max 0 (x0 - pad)) (Nat.min w (x1 + pad + 1)) img)
  end.

(** The call [trim_whitespace(img)] with the default arguments. *)
Definition trim_whitespace (img : Image) : option Image :=
  trim_whitespace_with img 10 245 200.

(** ** Page helpers *)

Definition header_keywords : list string :=
  ["www."; "doi"; "nature"; "scientific"; "journal"].

Definition get_page_content_top (page : Page) : Z :=
  let header_bottom :=
    fold_left (fun header_bottom b =>
      let text := Text.strip (b4 b) in
      let y_top := b1 b in
      let y_bot := b3 b in
      if (y_top <? 40)
         && existsb (fun kw => Text.contains kw (Text.lower text)) header_keywords
      then Z.max header_bottom y_bot
      else header_bottom)
    (get_text_blocks page) 0 in
  if header_bottom >? 0 then header_bottom + 2 else 10.

(** [dashes and str(dashes) != "[] 0"] *)
Definition is_dashed (d : Drawing) : bool :=
  match dashes d with
  | Some s => Text.nonempty s && negb (String.eqb s "[] 0")
  | None => false
  end.

(** The body of the loop of [get_dashed_separator_y]. *)
Definition dashed_step (above_y : Z) (result : option Z) (d : Drawing)
  : option Z :=
  if is_dashed d then
    let line_y := y0 (drect d) in
    if line_y <? above_y then
      match result with
      | None => Some line_y
      | Some r => if line_y >? r then Some line_y else result
      end
    else result
  else result.

Definition get_dashed_separator_y (page : Page) (above_y : Z) : option Z :=
  fold_left (dashed_step above_y) (get_drawings page) None.

Definition get_si_section_header_bottom (page : Page) (above_y : Z) : Z :=
  fold_left (fun bottom b =>
    let text := Text.strip (b4 b) in
    let y_bot := b3 b in
    if (y_bot <? above_y) && matches SI_SECTION_RE text
    then Z.max bottom y_bot
    else bottom)
  (get_text_blocks page) 0.

Definition get_last_content_bottom (page : Page) (caption_top_y : Z)
           (caption_re : re) : Z :=
  fold_left (fun last_y b =>
    let text := Text.strip (b4 b) in
    let y_bot := b3 b in
    if matches caption_re text then last_y
    else if matches SI_SECTION_RE text then last_y
    else if y_bot <=? caption_top_y + 5 then Z.max last_y y_bot
    else last_y)
  (get_text_blocks page) 0.

(** The blocks [get_last_content_bottom] takes into account: neither a
    caption nor a section title, and ending at or above the caption top
    plus 5. *)
Definition content_block_above (caption_re : re) (caption_top_y : Z)
           (b : Block) : bool :=
  negb (matches caption_re (Text.strip (b4 b)))
  && negb (matches SI_SECTION_RE (Text.strip (b4 b)))
  && (b3 b <=? caption_top_y + 5).

(** The supplementary bottom boundary in the words of the
    specification: max(caption-top + 2, bottom of the last content
    block). *)
Definition claimed_si_bottom (page : Page) (cap_top_y : Z) : Z :=
  Z.max (cap_top_y + 2) (get_last_content_bottom page cap_top_y CAPTION_RE_SI).

(** ** Caption detection *)

(** One dict built by [find_all_captions]. *)
Record Caption : Type := mkCaption {
  cap_page : nat;
  cap_label : string;
  cap_type : string;
  cap_rect : Rect;
  cap_caption_text : string
}.

Definition caption_re_of (si : bool) : re :=
  if si then CAPTION_RE_SI else CAPTION_RE_MAIN.

(** [re.sub(r'^[Ss]', '', num) or num] *)
Definition num_clean (num : string) : string :=
  let stripped :=
    match num with
    | String c r => if chr "S" c || chr "s" c then r else num
    | EmptyString => num
    end in
  if Text.nonempty stripped then stripped else num.

(** The body of the inner loop of [find_all_captions] for one block. *)
Definition caption_of_block (si : bool) (page_num : nat) (b : Block)
  : option Caption :=
  let text := Text.strip (b4 b) in
  match match_ (caption_re_of si) text with
  | None => None
  | Some m =>
      let kind := Text.lower (group 1 m) in
      let num := group 2 m in
      let kind_norm := if Text.contains "table" kind then "table" else "figure" in
      let label :=
        if si then String.append "s" (String.append kind_norm (num_clean num))
        else String.append kind_norm num in
      Some {| cap_page := page_num;
              cap_label := label;
              cap_type := kind_norm;
              cap_rect := mkRect (b0 b) (b1 b) (b2 b) (b3 b);
              cap_caption_text := text |}
  end.

Definition find_all_captions (doc : Document) (si : bool) : list Caption :=
  concat (imap (fun page_num page =>
            if si && Nat.eqb page_num 0 then []
            else omap (caption_of_block si page_num) (get_text_blocks page))
          doc).

(** ** Region extraction *)

(** The top boundary before the mode-specific adjustments: the previous
    caption's bottom + 3, or the start of the page content. *)
Definition base_top (page : Page) (prev_cap_bottom : option Z) : Z :=
  match prev_cap_bottom with
  | Some p => p + 3
  | None => get_page_content_top page
  end.

(** The value of [fig_top_y] when the top-boundary block of
    [extract_figure] is left. *)
Definition fig_top_y (page : Page) (cap_top_y : Z)
           (prev_cap_bottom : option Z) (si : bool) : Z :=
  let caption_re := caption_re_of si in
  let fig_top_y := base_top page prev_cap_bottom in
  if si then
    let header_bottom := get_si_section_header_bottom page cap_top_y in
    let fig_top_y :=
      if header_bottom >? fig_top_y then header_bottom + 2 else fig_top_y in
    let scan_top := if header_bottom >? 0 then header_bottom else fig_top_y in
    let last_text_y :=
      fold_left (fun last_text_y b =>
        let text := Text.strip (b4 b) in
        let y_top := b1 b in
        let y_bot := b3 b in
        if (y_top >=? scan_top) && (y_bot <? cap_top_y - 5) then
          if negb (matches caption_re text)
             && negb (matches SI_SECTION_RE text)
             && Text.nonempty text
          then Z.max last_text_y y_bot
          else last_text_y
        else last_text_y)
      (get_text_blocks page) scan_top in
    if (last_text_y >? scan_top) && (cap_top_y - last_text_y >? 30)
    then Z.max fig_top_y (last_text_y + 3)
    else fig_top_y
  else
    match get_dashed_separator_y page cap_top_y with
    | Some dashed_y =>
        if dashed_y >? fig_top_y then dashed_y + 2 else fig_top_y
    | None => fig_top_y
    end.

(** The bottom boundary. *)
Definition clip_bottom (page : Page) (cap_top_y : Z) (si : bool) : Z :=
  if si then
    let last_content_y :=
      get_last_content_bottom page cap_top_y (caption_re_of si) in
    Z.max last_content_y cap_top_y + 2
  else cap_top_y - 3.

(** The rectangle [clip] handed to the renderer. *)
Definition clip (page : Page) (caption : Caption)
           (prev_cap_bottom : option Z) (si : bool) : Rect :=
  let page_rect := rect page in
  let cap_top_y := y0 (cap_rect caption) in
  mkRect (x0 page_rect + 3)
         (fig_top_y page cap_top_y prev_cap_bottom si)
         (x1 page_rect - 3)
         (clip_bottom page cap_top_y si).

(** The image kept from a trimmed rendering: [None] when the trimmer
    found nothing or left fewer than 20 rows or columns. *)
Definition keep_if_large (img : option Image) : option Image :=
  match img with
  | None => None
  | Some img =>
      if (Z.of_nat (shape0 img) <? 20) || (Z.of_nat (shape1 img) <? 20)
      then None else Some img
  end.

(** The image obtained from the region above the caption. *)
Definition above_image (page : Page) (mat : Matrix) (region : Rect)
  : option Image :=
  if (height region <? 20) || (width region <? 20) then None
  else
    let img := get_pixmap page mat region in
    keep_if_large (trim_whitespace img).

Definition min_listZ (d : Z) (l : list Z) : Z := fold_left Z.min l d.

(** [below_bottom] of the fallback. *)
Definition below_bottom (page : Page) (cap_bot_y : Z) (caption_re : re) : Z :=
  let all_caps_on_page :=
    filter (fun b => Is_true (matches caption_re (Text.strip (b4 b))
                              && (b1 b >? cap_bot_y + 5)))
           (get_text_blocks page) in
  match all_caps_on_page with
  | b :: rest =>
      let next_cap_y := min_listZ (b1 b) (map b1 rest) in
      next_cap_y - 3
  | [] => y1 (rect page) - 5
  end.

Definition below_clip (page : Page) (caption : Caption) (si : bool) : Rect :=
  let page_rect := rect page in
  let cap_bot_y := y1 (cap_rect caption) in
  mkRect (x0 page_rect + 3)
         (cap_bot_y + 3)
         (x1 page_rect - 3)
         (below_bottom page cap_bot_y (caption_re_of si)).

(** The image obtained from the region below the caption. *)
Definition below_image (page : Page) (mat : Matrix) (region : Rect)
  : option Image :=
  if (height region >=? 20) && (width region >=? 20) then
    let img := get_pixmap page mat region in
    keep_if_large (trim_whitespace img)
  else None.

(** [extract_figure] once [page = doc[page_num]] is known. *)
Definition extract_figure_on (page : Page) (caption : Caption)
           (prev_cap_bottom : option Z) (mat : Matrix) (si : bool)
  : option (Image * Z) :=
  let img := above_image page mat (clip page caption prev_cap_bottom si) in
  let img :=
    match img with
    | None =>
        if si then below_image page mat (below_clip page caption si)
        else None
    | Some _ => img
    end in
  match img with
  | None => None
  | Some img => Some (img, y1 (cap_rect caption))
  end.

Definition extract_figure (doc : Document) (caption : Caption)
           (prev_cap_bottom : option Z) (mat : Matrix) (si : bool)
  : outcome (option (Image * Z)) :=
  match doc !! cap_page caption with
  | None => IndexError
  | Some page => Returned (extract_figure_on page caption prev_cap_bottom mat si)
  end.

(** ** The run *)

Record ManifestEntry : Type := mkEntry {
  m_label : string;
  m_type : string;
  m_path : string;
  m_caption_text : string
}.

(** What the run writes: an image ([cv2.imwrite]) or the manifest
    ([json.dump]). *)
Inductive File : Type :=
| PngFile (img : Image)
| JsonFile (manifest : list ManifestEntry).

(** The lines printed by [run]. *)
Inductive Message : Type :=
| MsgMode (si : bool)
| MsgNoCaptions
| MsgSkipDuplicate (label : string) (page_no : nat)
| MsgSkipTooSmall (label : string) (page_no : nat)
| MsgImage (label : string) (w h : nat)
| MsgManifest (path : string).

(** The local variables of [run] that the loop updates, the files of the
    output directory and the printed lines. *)
Record RunState : Type := mkState {
  manifest : list ManifestEntry;
  prev_cap_bottom_by_page : gmap nat Z;
  extracted_labels : gset string;
  files : gmap string File;
  stdout : list Message
}.

Fixpoint ends_with_slash (s : string) : bool :=
  match s with
  | EmptyString => false
  | String c EmptyString => chr "/" c
  | String _ r => ends_with_slash r
  end.

(** [os.path.join(a, b)] (POSIX). *)
Definition path_join (a b : string) : string :=
  if String.prefix "/" b then b
  else if negb (Text.nonempty a) || ends_with_slash a then String.append a b
  else String.append a (String.append "/" b).

Definition say (msg : Message) (st : RunState) : RunState :=
  {| manifest := manifest st;
     prev_cap_bottom_by_page := prev_cap_bottom_by_page st;
     extracted_labels := extracted_labels st;
     files := files st;
     stdout := stdout st ++ [msg] |}.

(** One iteration of [for cap in captions]. *)
Definition loop_body (doc : Document) (out_dir : string) (mat : Matrix)
           (si : bool) (st : RunState) (cap : Caption) : outcome RunState :=
  let page_num := cap_page cap in
  let label := cap_label cap in
  if decide (label ∈ extracted_labels st) then
    Returned (say (MsgSkipDuplicate label (page_num + 1)) st)
  else
    let prev_bottom := prev_cap_bottom_by_page st !! page_num in
    match extract_figure doc cap prev_bottom mat si with
    | IndexError => IndexError
    | Returned None => Returned (say (MsgSkipTooSmall label (page_num + 1)) st)
    | Returned (Some (img, cap_bottom)) =>
        let out_path := path_join out_dir (String.append label ".png") in
        Returned
          {| manifest :=
               manifest st ++
               [ {| m_label := label;
                    m_type := cap_type cap;
                    m_path := out_path;
                    m_caption_text := cap_caption_text cap |} ];
             prev_cap_bottom_by_page :=
               <[page_num := cap_bottom]> (prev_cap_bottom_by_page st);
             extracted_labels := extracted_labels st ∪ {[ label ]};
             files := <[out_path := PngFile img]> (files st);
             stdout := stdout st ++ [MsgImage label (shape1 img) (shape0 img)] |}
    end.

Fixpoint loop (doc : Document) (out_dir : string) (mat : Matrix) (si : bool)
         (captions : list Caption) (st : RunState) : outcome RunState :=
  match captions with
  | [] => Returned st
  | cap :: rest =>
      match loop_body doc out_dir mat si st cap with
      | IndexError => IndexError
      | Returned st' => loop doc out_dir mat si rest st'
      end
  end.

(** [run(pdf_path, out_dir, si)], with [doc] the document opened from
    [pdf_path], [files0] the files present in the output directory and
    the result made of the returned manifest, the files afterwards and
    the printed lines. *)
Definition run (doc : Document) (out_dir : string) (si : bool)
           (files0 : gmap string File)
  : outcome (list ManifestEntry * gmap string File * list Message) :=
  let mat : Matrix := (ZOOM, ZOOM) in
  let out0 := [MsgMode si] in
  let captions := find_all_captions doc si in
  match captions with
  | [] => Returned ([], files0, out0 ++ [MsgNoCaptions])
  | _ =>
      let st0 := {| manifest := [];
                    prev_cap_bottom_by_page := ∅;
                    extracted_labels := ∅;
                    files := files0;
                    stdout := out0 |} in
      match loop doc out_dir mat si captions st0 with
      | IndexError => IndexError
      | Returned st =>
          let manifest_path := path_join out_dir "manifest.json" in
          Returned (manifest st,
                    <[manifest_path := JsonFile (manifest st)]> (files st),
                    stdout st ++ [MsgManifest manifest_path])
      end
  end.

(** A caption-grammar block that starts more than 5 units below
    [cap_bot_y]: the blocks the fallback stops at. *)
Definition follows_caption (caption_re : re) (cap_bot_y : Z) (b : Block) : bool :=
  matches caption_re (Text.strip (b4 b)) && (b1 b >? cap_bot_y + 5).

(** A rectangle lying within the bounds of the page. *)
Definition inside_page (r : Rect) (page : Page) : Prop :=
  x0 (rect page) <= x0 r /\ y0 (rect page) <= y0 r
  /\ x1 r <= x1 (rect page) /\ y1 r <= y1 (rect page).

(** The lower end of the fallback region in the words of the
    specification: the top of the next caption of the same type (figure
    or table) below this caption on the page, minus 3, if there is one,
    else the page bottom minus 5. *)
Definition same_type_below (si : bool) (caption : Caption) (b : Block) : bool :=
  match caption_of_block si (cap_page caption) b with
  | Some c => String.eqb (cap_type c) (cap_type caption)
              && (b1 b >? y1 (cap_rect caption))
  | None => false
  end.
Definition claimed_below_bottom (page : Page) (caption : Caption) (si : bool) : Z :=
  match filter (fun b => Is_true (same_type_below si caption b))
               (get_text_blocks page) with
  | b :: rest => min_listZ (b1 b) (map b1 rest) - 3
  | [] => y1 (rect page) - 5
  end.

(** The manifest entry appended for a caption written to [out_dir]. *)
Definition entry_of (out_dir : string) (cap : Caption) : ManifestEntry :=
  {| m_label := cap_label cap;
     m_type := cap_type cap;
     m_path := path_join out_dir (String.append (cap_label cap) ".png");
     m_caption_text := cap_caption_text cap |}.

(** What the loop of [run] maintains: the labels of the manifest are
    pairwise distinct and all locked in. *)
Definition labels_locked (st : RunState) : Prop :=
  NoDup (map m_label (manifest st))
  /\ forall l, l ∈ map m_label (manifest st) -> l ∈ extracted_labels st.

(** The captions [find_all_captions] takes from one page: the body of
    its outer loop. *)
Definition page_captions (si : bool) (page_num : nat) (page : Page)
  : list Caption :=
  if si && Nat.eqb page_num 0 then []
  else omap (caption_of_block si page_num) (get_text_blocks page).

(** The last character of a string. *)
Fixpoint last_char (s : string) : option ascii :=
  match s with
  | EmptyString => None
  | String c EmptyString => Some c
  | String _ r => last_char r
  end.

(** The running-header blocks of [get_page_content_top]: starting in the
    top 40 units and holding one of the keywords. *)
Definition header_block (b : Block) : bool :=
  (b1 b <? 40)
  && existsb (fun kw => Text.contains kw (Text.lower (Text.strip (b4 b))))
             header_keywords.

(** The section-title blocks of [get_si_section_header_bottom]. *)
Definition section_block_above (above_y : Z) (b : Block) : bool :=
  (b3 b <? above_y) && matches SI_SECTION_RE (Text.strip (b4 b)).

(** The local variables of the supplementary top-boundary block of
    [extract_figure]: [fig_top_y] after the section-title step,
    [scan_top], the blocks the loop takes as body text, and
    [last_text_y] after the loop. *)
Definition si_header_top (page : Page) (cap_top_y : Z) (prev : option Z) : Z :=
  let fig_top_y := base_top page prev in
  let header_bottom := get_si_section_header_bottom page cap_top_y in
  if header_bottom >? fig_top_y then header_bottom + 2 else fig_top_y.

Definition si_scan_top (page : Page) (cap_top_y : Z) (prev : option Z) : Z :=
  let header_bottom := get_si_section_header_bottom page cap_top_y in
  if header_bottom >? 0 then header_bottom else si_header_top page cap_top_y prev.

Definition body_text_above (scan_top cap_top_y : Z) (b : Block) : bool :=
  (b1 b >=? scan_top) && (b3 b <? cap_top_y - 5)
  && (negb (matches CAPTION_RE_SI (Text.strip (b4 b)))
      && negb (matches SI_SECTION_RE (Text.strip (b4 b)))
      && Text.nonempty (Text.strip (b4 b))).

Definition si_last_text_y (page : Page) (cap_top_y : Z) (prev : option Z) : Z :=
  let scan_top := si_scan_top page cap_top_y prev in
  fold_left (fun last_text_y b =>
               if body_text_above scan_top cap_top_y b
               then Z.max last_text_y (b3 b) else last_text_y)
            (get_text_blocks page) scan_top.

(** The value of [top_start] when pass 1 of [trim_whitespace(img)] is
    left: the row at which the later passes start. *)
Definition top_start_with (img : Image) (white_thresh dark_row_thresh : Z) : nat :=
  dark_rows dark_row_thresh white_thresh (map (map gray_of) img) 0 0.
Definition top_start_of (img : Image) : nat := top_start_with img 245 200.

(** Row [k] of the buffer has a mean gray level below, resp. above, [t]. *)
Definition row_mean_lt (img : Image) (k : nat) (t : Z) : Prop :=
  exists row, img !! k = Some row /\ mean_lt (map gray_of row) t = true.
Definition row_mean_gt (img : Image) (k : nat) (t : Z) : Prop :=
  exists row, img !! k = Some row /\ mean_gt (map gray_of row) t = true.

(** What holds of a state of the loop of a run started on the files
    [files0]: every manifest entry has its image file, of at least 20
    rows and columns, under [out_dir]; every other path holds what it held
    before the run. *)
Definition run_inv (out_dir : string) (files0 : gmap string File)
           (st : RunState) : Prop :=
  (forall e, e ∈ manifest st ->
     m_path e = path_join out_dir (String.append (m_label e) ".png")
     /\ exists img, files st !! m_path e = Some (PngFile img)
                    /\ (20 <= shape0 img)%nat /\ (20 <= shape1 img)%nat)
  /\ (forall path, (forall e, e ∈ manifest st -> m_path e <> path) ->
        files st !! path = files0 !! path).

(** Two states that agree on everything but the printed lines. *)
Definition same_results (st1 st2 : RunState) : Prop :=
  manifest st1 = manifest st2
  /\ prev_cap_bottom_by_page st1 = prev_cap_bottom_by_page st2
  /\ extracted_labels st1 = extracted_labels st2
  /\ files st1 = files st2.

Definition same_outcome (o1 o2 : outcome RunState) : Prop :=
  match o1, o2 with
  | Returned st1, Returned st2 => same_results st1 st2
  | IndexError, IndexError => True
  | _, _ => False
  end.

End Extractor.

(** ** Sample inputs

    Rendered buffers of gray levels (the pixel type is [Z], the gray
    conversion the identity) and small pages used to evaluate the
    definitions. *)

Module Samples.

Definition gray_id (v : Z) : Z := v.

(** [h] rows of [w] pixels, black in column 0 and white elsewhere. *)
Definition ruled_img (h w : nat) : list (list Z) :=
  repeat (0 :: repeat 255 (w - 1)%nat) h.

(** An all-white buffer. *)
Definition white_img (h w : nat) : list (list Z) :=
  repeat (repeat 255 w) h.

Definition render_ruled : Matrix -> Rect -> list (list Z) :=
  fun _ _ => ruled_img 30 40.

Definition solid_line (y : Z) : Drawing :=
  mkDrawing (Some "[] 0") (mkRect 40 y 560 y).
Definition dashed_line (y : Z) : Drawing :=
  mkDrawing (Some "[ 3 3 ] 0") (mkRect 40 y 560 y).

(** The page of the worked scenario: height 800, one block. *)
Definition scenario_block : Block := mkBlock 50 700 500 720 "Figure 1.".
Definition scenario_page (ds : list Drawing) : Page (Pixel := Z) :=
  mkPage (mkRect 0 0 600 800) [scenario_block] ds render_ruled.
Definition scenario_caption : Caption :=
  mkCaption 0 "figure1" "figure" (mkRect 50 700 500 720) "Figure 1.".

(** A main-article page with two dashed rules above its caption. *)
Definition two_rules_page : Page (Pixel := Z) :=
  scenario_page [dashed_line 100; dashed_line 200].

(** A supplementary page whose axis label ends below the caption top. *)
Definition axis_page : Page (Pixel := Z) :=
  mkPage (mkRect 0 0 600 800)
         [ mkBlock 60 690 200 704 "Wavelength (nm)";
           mkBlock 50 700 500 720 "Fig. S1. Spectra" ]
         [] render_ruled.

(** A main-article page whose caption starts at 33: the region above
    it, from 10 to 30, is exactly 20 high. *)
Definition edge_page : Page (Pixel := Z) :=
  mkPage (mkRect 0 0 600 800)
         [mkBlock 50 33 500 45 "Figure 2."]
         [] render_ruled.
Definition edge_caption : Caption :=
  mkCaption 0 "figure2" "figure" (mkRect 50 33 500 45) "Figure 2.".

(** A supplementary page whose last blocks reach the foot of the page:
    an axis label ending at 799 and a caption from 794 to 800, all within
    the page of height 800. *)
Definition foot_page : Page (Pixel := Z) :=
  mkPage (mkRect 0 0 600 800)
         [ mkBlock 60 700 200 799 "Intensity (a.u.)";
           mkBlock 50 794 500 800 "Fig. S1. Spectra" ]
         [] render_ruled.
Definition foot_caption : Caption :=
  mkCaption 1 "sfigure1" "figure" (mkRect 50 794 500 800) "Fig. S1. Spectra".

(** A renderer that finds nothing above Y = 50 and ruled content below. *)
Definition render_below_only : Matrix -> Rect -> list (list Z) :=
  fun _ r => if y0 r <? 50 then white_img 30 40 else ruled_img 30 40.

(** A supplementary page with a table title above its body, followed
    lower down by a figure caption. *)
Definition table_page : Page (Pixel := Z) :=
  mkPage (mkRect 0 0 600 800)
         [ mkBlock 50 60 500 75 "Table S1. Fitted parameters";
           mkBlock 50 600 500 615 "Fig. S2. Spectra" ]
         [] render_below_only.
Definition table_caption : Caption :=
  mkCaption 1 "stable1" "table" (mkRect 50 60 500 75) "Table S1. Fitted parameters".

(** A supplementary page with two table titles 3 units apart. *)
Definition stacked_page : Page (Pixel := Z) :=
  mkPage (mkRect 0 0 600 800)
         [ mkBlock 50 60 500 75 "Table S1. Fitted parameters";
           mkBlock 50 78 500 90 "Table S2. Residuals" ]
         [] render_below_only.

(** A supplementary page: a section title, two paragraphs, a plot with
    its axis label, and the caption. *)
Definition si_text_page : Page (Pixel := Z) :=
  mkPage (mkRect 0 0 600 800)
         [ mkBlock 50 40 550 55 "Supplementary Note 1";
           mkBlock 50 70 550 200 "The spectra were recorded at room temperature.";
           mkBlock 50 210 550 300 "All samples were measured twice.";
           mkBlock 50 700 550 715 "Fig. S1. Spectra" ]
         [] render_ruled.

(** The same page with an axis label 20 units above the caption. *)
Definition si_label_page : Page (Pixel := Z) :=
  mkPage (mkRect 0 0 600 800)
         [ mkBlock 50 40 550 55 "Supplementary Note 1";
           mkBlock 50 70 550 200 "The spectra were recorded at room temperature.";
           mkBlock 250 665 350 680 "Wavelength (nm)";
           mkBlock 50 700 550 715 "Fig. S1. Spectra" ]
         [] render_ruled.

(** A main-article page with a running header and two captions. *)
Definition header_page : Page (Pixel := Z) :=
  mkPage (mkRect 0 0 600 800)
         [ mkBlock 40 15 560 28 "www.nature.com/scientificreports/";
           mkBlock 50 300 550 330 "Figure 1. Setup";
           mkBlock 50 700 550 730 "Figure 2. Results" ]
         [solid_line 29] render_ruled.
Definition header_caption1 : Caption :=
  mkCaption 0 "figure1" "figure" (mkRect 50 300 550 330) "Figure 1. Setup".
Definition header_caption2 : Caption :=
  mkCaption 0 "figure2" "figure" (mkRect 50 700 550 730) "Figure 2. Results".

(** A supplementary page whose blocks come in the order: a figure
    caption at 500, a table title at 200, a figure caption at 700. *)
Definition unordered_page : Page (Pixel := Z) :=
  mkPage (mkRect 0 0 600 800)
         [ mkBlock 50 500 550 520 "Fig. S1. Setup";
           mkBlock 50 200 550 220 "Table S1. Fitted parameters";
           mkBlock 50 700 550 720 "Fig. S2. Spectra" ]
         [] render_ruled.

(** A buffer that is black throughout. *)
Definition dark_img (h w : nat) : list (list Z) := repeat (repeat 0 w) h.

(** A page of body text without any caption. *)
Definition plain_page : Page (Pixel := Z) :=
  mkPage (mkRect 0 0 600 800)
         [mkBlock 50 60 550 300 "Introduction. Earlier work has shown"]
         [] render_ruled.

(** A contents page: the caption string sits at the very top, so that
    the region above it is 7 units high. *)
Definition toc_page : Page (Pixel := Z) :=
  mkPage (mkRect 0 0 600 800)
         [mkBlock 50 20 500 30 "Figure 1."]
         [] render_ruled.
Definition toc_caption : Caption :=
  mkCaption 0 "figure1" "figure" (mkRect 50 20 500 30) "Figure 1.".
Definition body_caption : Caption :=
  mkCaption 1 "figure1" "figure" (mkRect 50 700 500 720) "Figure 1.".

(** The contents page followed by the page of the figure itself. *)
Definition toc_doc : Document (Pixel := Z) := [toc_page; scenario_page []].

Definition state0 : RunState (Pixel := Z) :=
  mkState [] ∅ ∅ ∅ [].

End Samples.

(** * Properties *)

Section Properties.

Context {Pixel : Type} (gray_of : Pixel -> Z).

Implicit Types (page : Page (Pixel := Pixel)) (b : Block) (d : Drawing).

(** ** Folds that keep a maximum *)

Lemma fold_max_ge {B} (g : Z -> B -> Z) (l : list B) (a : Z) :
  (forall acc x, acc <= g acc x) -> a <= fold_left g l a.
Proof.
  intros Hg. revert a. induction l as [|x l IH]; intros a; simpl; [lia|].
  specialize (IH (g a x)). specialize (Hg a x). lia.
Qed.

Lemma fold_max_spec {B} (P : B -> bool) (f : B -> Z) (g : Z -> B -> Z)
      (l : list B) (a : Z) :
  (forall acc x, g acc x = if P x then Z.max acc (f x) else acc) ->
  let r := fold_left g l a in
  a <= r
  /\ (forall x, x ∈ l -> P x = true -> f x <= r)
  /\ (r = a \/ exists x, x ∈ l /\ P x = true /\ r = f x).
Proof.
  intros Hg. revert a. induction l as [|x l IH]; intros a; simpl.
  - split; [lia|]. split; [|by left]. intros x Hx. by apply elem_of_nil in Hx.
  - destruct (IH (g a x)) as (Hge & Hub & Hex).
    assert (Ha : a <= g a x) by (rewrite Hg; destruct (P x); lia).
    split; [lia|]. split.
    + intros z Hz Pz. apply elem_of_cons in Hz as [->|Hz]; [|by apply Hub].
      assert (f x <= g a x) by (rewrite Hg, Pz; lia). lia.
    + destruct Hex as [Hr|(z & Hz & Pz & Hr)].
      * rewrite Hr, Hg. destruct (P x) eqn:Px; [|by left].
        destruct (Z.max_spec a (f x)) as [[_ ->]|[_ ->]].
        -- right. exists x. split; [apply elem_of_cons; by left|done].
        -- by left.
      * right. exists z. split; [apply elem_of_cons; by right|done].
Qed.

(** ** The supplementary bottom boundary (C5) *)

Lemma get_last_content_bottom_spec page caption_top_y caption_re :
  let L := get_last_content_bottom page caption_top_y caption_re in
  0 <= L
  /\ (forall b, b ∈ get_text_blocks page ->
        content_block_above caption_re caption_top_y b = true -> b3 b <= L)
  /\ (L = 0 \/ exists b, b ∈ get_text_blocks page
                /\ content_block_above caption_re caption_top_y b = true
                /\ L = b3 b).
Proof.
  unfold get_last_content_bottom.
  apply (fold_max_spec (content_block_above caption_re caption_top_y) b3).
  intros acc b. unfold content_block_above.
  destruct (matches caption_re _); [done|].
  destruct (matches SI_SECTION_RE _); [done|].
  destruct (b3 b <=? caption_top_y + 5); done.
Qed.

(** C5 (amended). In supplementary mode the bottom boundary is
    max(caption-top, L) + 2, that is max(caption-top + 2, L + 2), where L
    is the greatest bottom Y among the blocks that are neither captions
    nor section titles and end at or above caption-top + 5, and 0 when
    there is no such block (or none with a positive bottom). *)
Theorem C5_si_bottom_boundary page (caption : Caption) (prev : option Z) :
  let cap_top_y := y0 (cap_rect caption) in
  let L := get_last_content_bottom page cap_top_y CAPTION_RE_SI in
  y1 (clip page caption prev true) = Z.max cap_top_y L + 2
  /\ y1 (clip page caption prev true) = Z.max (cap_top_y + 2) (L + 2)
  /\ 0 <= L
  /\ (forall b, b ∈ get_text_blocks page ->
        content_block_above CAPTION_RE_SI cap_top_y b = true -> b3 b <= L)
  /\ (L = 0 \/ exists b, b ∈ get_text_blocks page
                /\ content_block_above CAPTION_RE_SI cap_top_y b = true
                /\ L = b3 b).
Proof.
  intros cap_top_y L.
  assert (Hb : y1 (clip page caption prev true) = Z.max cap_top_y L + 2).
  { unfold clip, clip_bottom. cbn [y1 caption_re_of]. fold cap_top_y. fold L. lia. }
  split; [exact Hb|]. split; [lia|].
  exact (get_last_content_bottom_spec page cap_top_y CAPTION_RE_SI).
Qed.

(** ** The dashed separator (C4) *)

Lemma dashed_step_mono above_y a d :
  exists a', dashed_step above_y (Some a) d = Some a' /\ a <= a'.
Proof.
  unfold dashed_step. destruct (is_dashed d); [|exists a; split; [done|lia]].
  destruct (y0 (drect d) <? above_y); [|exists a; split; [done|lia]].
  destruct (y0 (drect d) >? a) eqn:Hgt.
  - apply Z.gtb_lt in Hgt. eexists; split; [done|lia].
  - exists a; split; [done|lia].
Qed.

Lemma dashed_step_hit above_y acc d :
  is_dashed d = true -> y0 (drect d) < above_y ->
  exists a', dashed_step above_y acc d = Some a' /\ y0 (drect d) <= a'.
Proof.
  intros Hdash Hlt. unfold dashed_step. rewrite Hdash.
  apply Z.ltb_lt in Hlt. rewrite Hlt.
  destruct acc as [a|]; [|eexists; split; [done|lia]].
  destruct (y0 (drect d) >? a) eqn:Hgt.
  - eexists; split; [done|lia].
  - exists a. split; [done|]. rewrite Z.gtb_ltb in Hgt. apply Z.ltb_ge in Hgt. lia.
Qed.

Lemma dashed_step_from above_y acc d m :
  dashed_step above_y acc d = Some m ->
  acc = Some m
  \/ (is_dashed d = true /\ y0 (drect d) < above_y /\ m = y0 (drect d)).
Proof.
  unfold dashed_step. destruct (is_dashed d); [|by left].
  destruct (y0 (drect d) <? above_y) eqn:Hlt; [|by left].
  apply Z.ltb_lt in Hlt.
  destruct acc as [a|].
  - destruct (y0 (drect d) >? a); [|by left].
    intros [= <-]. by right.
  - intros [= <-]. by right.
Qed.

Lemma dashed_fold_spec above_y (ds : list Drawing) (acc : option Z) :
  let r := fold_left (dashed_step above_y) ds acc in
  (forall a, acc = Some a -> exists m, r = Some m /\ a <= m)
  /\ (forall d, d ∈ ds -> is_dashed d = true -> y0 (drect d) < above_y ->
        exists m, r = Some m /\ y0 (drect d) <= m)
  /\ (forall m, r = Some m ->
        acc = Some m
        \/ exists d, d ∈ ds /\ is_dashed d = true
                     /\ y0 (drect d) < above_y /\ m = y0 (drect d)).
Proof.
  revert acc. induction ds as [|d ds IH]; intros acc; simpl.
  - split; [intros a ->; exists a; split; [done|lia]|].
    split; [intros d Hd; by apply elem_of_nil in Hd|].
    intros m ->. by left.
  - destruct (IH (dashed_step above_y acc d)) as (Hacc & Hin & Hfrom).
    split; [|split].
    + intros a ->.
      destruct (dashed_step_mono above_y a d) as (a' & Ha' & Hle).
      destruct (Hacc a' Ha') as (m & Hm & Hle').
      exists m. split; [done|lia].
    + intros d' Hd' Hdash Hlt. apply elem_of_cons in Hd' as [->|Hd'].
      * destruct (dashed_step_hit above_y acc d Hdash Hlt) as (a' & Ha' & Hle).
        destruct (Hacc a' Ha') as (m & Hm & Hle').
        exists m. split; [done|lia].
      * by apply Hin.
    + intros m Hm. destruct (Hfrom m Hm) as [Hstep|(d' & Hd' & ?)].
      * destruct (dashed_step_from _ _ _ _ Hstep) as [?|?]; [by left|].
        right. exists d. split; [apply elem_of_cons; by left|done].
      * right. exists d'. split; [apply elem_of_cons; by right|done].
Qed.

(** C4 (amended). In main mode, let [d] be a dashed drawing whose Y lies
    strictly between the previous-caption-derived top and the caption
    top, and which is the dashed drawing nearest above the caption top
    (no dashed drawing above the caption top has a greater Y).  Then the
    resolved top boundary is that Y + 2. *)
Theorem C4_dashed_separator_top page (cap_top_y : Z) (prev : option Z) d :
  d ∈ get_drawings page ->
  is_dashed d = true ->
  base_top page prev < y0 (drect d) < cap_top_y ->
  (forall d', d' ∈ get_drawings page -> is_dashed d' = true ->
              y0 (drect d') < cap_top_y -> y0 (drect d') <= y0 (drect d)) ->
  fig_top_y page cap_top_y prev false = y0 (drect d) + 2.
Proof.
  intros Hd Hdash [Hlo Hhi] Hnear.
  destruct (dashed_fold_spec cap_top_y (get_drawings page) None)
    as (_ & Hin & Hfrom).
  destruct (Hin d Hd Hdash Hhi) as (m & Hm & Hle).
  destruct (Hfrom m Hm) as [?|(d' & Hd' & Hdash' & Hlt' & ->)]; [done|].
  specialize (Hnear d' Hd' Hdash' Hlt').
  unfold fig_top_y. cbv iota. unfold get_dashed_separator_y. rewrite Hm.
  assert (Hgt : (y0 (drect d') >? base_top page prev) = true)
    by (apply Z.gtb_lt; lia).
  rewrite Hgt. lia.
Qed.

(** ** The worked scenario (C8) *)

Lemma no_dashed_between page cap_top_y prev :
  (forall d, d ∈ get_drawings page -> is_dashed d = true ->
     y0 (drect d) <= base_top page prev \/ cap_top_y <= y0 (drect d)) ->
  fig_top_y page cap_top_y prev false = base_top page prev.
Proof.
  intros Hno. unfold fig_top_y. cbv iota.
  destruct (get_dashed_separator_y page cap_top_y) as [m|] eqn:Hm; [|done].
  destruct (dashed_fold_spec cap_top_y (get_drawings page) None) as (_ & _ & Hfrom).
  destruct (Hfrom m Hm) as [?|(d & Hd & Hdash & Hlt & ->)]; [done|].
  destruct (Hno d Hd Hdash) as [Hle|Hge]; [|lia].
  destruct (y0 (drect d) >? base_top page prev) eqn:Hgt; [|done].
  apply Z.gtb_lt in Hgt. lia.
Qed.

(** C8 (amended). A main-mode page of height 800 whose only text block
    is "Figure 1." at (50,700,500,720), with no previous caption on the
    page and no dashed drawing whose Y lies strictly between 10 and 700
    (whatever else is drawn on the page): the block is detected as
    caption [figure1], the top boundary resolves to 10, the bottom
    boundary to 697, and the region is 687 high. *)
Theorem C8_single_caption_scenario
        (left right : Z) (ds : list Drawing)
        (render : Matrix -> Rect -> Image (Pixel := Pixel)) :
  (forall d, d ∈ ds -> is_dashed d = true ->
     y0 (drect d) <= 10 \/ 700 <= y0 (drect d)) ->
  let page := mkPage (mkRect left 0 right 800)
                     [mkBlock 50 700 500 720 "Figure 1."] ds render in
  let caption := mkCaption 0 "figure1" "figure" (mkRect 50 700 500 720) "Figure 1." in
  find_all_captions [page] false = [caption]
  /\ fig_top_y page (y0 (cap_rect caption)) None false = 10
  /\ clip_bottom page (y0 (cap_rect caption)) false = 697
  /\ y0 (clip page caption None false) = 10
  /\ y1 (clip page caption None false) = 697
  /\ height (clip page caption None false) = 687.
Proof.
  intros Hds page caption.
  assert (Htop : fig_top_y page 700 None false = 10).
  { rewrite (no_dashed_between page 700 None); [reflexivity|exact Hds]. }
  split; [reflexivity|].
  split; [exact Htop|].
  split; [reflexivity|].
  subst caption. unfold clip, height. cbn [y0 y1 cap_rect].
  rewrite Htop. repeat split; reflexivity.
Qed.

(** ** The loop of [run] (C9, C1, C2) *)

Implicit Types (doc : Document (Pixel := Pixel)) (st : RunState (Pixel := Pixel))
         (cap : Caption).

Lemma loop_body_duplicate doc out_dir mat si st cap :
  cap_label cap ∈ extracted_labels st ->
  loop_body gray_of doc out_dir mat si st cap
  = Returned (say (MsgSkipDuplicate (cap_label cap) (cap_page cap + 1)) st).
Proof. intros Hin. unfold loop_body. by rewrite decide_True. Qed.

Lemma loop_body_too_small doc out_dir mat si st cap :
  cap_label cap ∉ extracted_labels st ->
  extract_figure gray_of doc cap (prev_cap_bottom_by_page st !! cap_page cap) mat si
  = Returned None ->
  loop_body gray_of doc out_dir mat si st cap
  = Returned (say (MsgSkipTooSmall (cap_label cap) (cap_page cap + 1)) st).
Proof. intros Hnin He. unfold loop_body. rewrite decide_False by done. by rewrite He. Qed.

Lemma loop_body_written doc out_dir mat si st cap img cap_bottom :
  cap_label cap ∉ extracted_labels st ->
  extract_figure gray_of doc cap (prev_cap_bottom_by_page st !! cap_page cap) mat si
  = Returned (Some (img, cap_bottom)) ->
  loop_body gray_of doc out_dir mat si st cap
  = Returned
      {| manifest := manifest st ++ [entry_of out_dir cap];
         prev_cap_bottom_by_page :=
           <[cap_page cap := cap_bottom]> (prev_cap_bottom_by_page st);
         extracted_labels := extracted_labels st ∪ {[ cap_label cap ]};
         files := <[m_path (entry_of out_dir cap) := PngFile img]> (files st);
         stdout := stdout st ++ [MsgImage (cap_label cap) (shape1 img) (shape0 img)] |}.
Proof. intros Hnin He. unfold loop_body. rewrite decide_False by done. by rewrite He. Qed.

(** ** The size gate and the rendered region (C6, C7) *)

Lemma above_image_Some page mat (c : Rect) img :
  above_image gray_of page mat c = Some img ->
  20 <= height c /\ 20 <= width c
  /\ keep_if_large (trim_whitespace gray_of (get_pixmap page mat c)) = Some img.
Proof.
  unfold above_image.
  destruct (height c <? 20) eqn:Hh; [done|].
  destruct (width c <? 20) eqn:Hw; [done|].
  apply Z.ltb_ge in Hh, Hw. done.
Qed.


Lemma below_image_Some page mat (c : Rect) img :
  below_image gray_of page mat c = Some img ->
  20 <= height c /\ 20 <= width c
  /\ keep_if_large (trim_whitespace gray_of (get_pixmap page mat c)) = Some img.
Proof.
  unfold below_image.
  destruct (height c >=? 20) eqn:Hh; [|done].
  destruct (width c >=? 20) eqn:Hw; [|done].
  rewrite Z.geb_leb in Hh, Hw. apply Z.leb_le in Hh, Hw. done.
Qed.


(** A region that is rendered and trims to nothing yields no image. *)
Lemma above_image_trims_empty page mat (c : Rect) :
  trim_whitespace gray_of (get_pixmap page mat c) = None ->
  above_image gray_of page mat c = None.
Proof.
  intros Htrim. unfold above_image. rewrite Htrim.
  by destruct (_ || _).
Qed.

(** The image survives only with at least 20 rows and 20 columns. *)
Lemma keep_if_large_Some (o : option (Image (Pixel := Pixel))) img :
  keep_if_large o = Some img ->
  o = Some img /\ (20 <= shape0 img)%nat /\ (20 <= shape1 img)%nat.
Proof.
  unfold keep_if_large. destruct o as [i|]; [|done].
  destruct (Z.of_nat (shape0 i) <? 20) eqn:H0; [done|].
  destruct (Z.of_nat (shape1 i) <? 20) eqn:H1; [done|].
  apply Z.ltb_ge in H0, H1. intros [= ->]. split; [done|]. lia.
Qed.


(** C7 (amended). A region that is rendered, that is, one that passed the
    size test, whether it is the region above the caption or the fallback
    region below it, has its left and right edges 3 units inside the
    left and right edges of the page, its top strictly above its bottom
    and its left strictly left of its right.  (Its top and bottom come
    from block geometry and are not compared with the page's.) *)
Theorem C7_rendered_region page (caption : Caption) (prev : option Z) si (r : Rect) :
  r = clip page caption prev si \/ r = below_clip page caption si ->
  20 <= height r -> 20 <= width r ->
  x0 r = x0 (rect page) + 3 /\ x1 r = x1 (rect page) - 3
  /\ x0 (rect page) < x0 r /\ x1 r < x1 (rect page)
  /\ y0 r < y1 r /\ x0 r < x1 r.
Proof.
  intros Hr Hh Hw. unfold height, width in Hh, Hw.
  assert (Hx : x0 r = x0 (rect page) + 3 /\ x1 r = x1 (rect page) - 3)
    by (destruct Hr as [-> | ->]; done).
  lia.
Qed.

(** ** The fallback below the caption (C3) *)

Lemma min_listZ_spec (d : Z) (l : list Z) :
  let m := min_listZ d l in
  m <= d /\ (forall x, x ∈ l -> m <= x) /\ (m = d \/ m ∈ l).
Proof.
  unfold min_listZ. revert d. induction l as [|x l IH]; intros d; simpl.
  - split; [lia|]. split; [|by left]. intros x Hx. by apply elem_of_nil in Hx.
  - destruct (IH (Z.min d x)) as (Hd & Hle & Hin).
    split; [lia|]. split.
    + intros z Hz. apply elem_of_cons in Hz as [->|Hz]; [lia|by apply Hle].
    + destruct Hin as [Hm|Hm].
      * rewrite Hm. destruct (Z.min_spec d x) as [[_ ->]|[_ ->]].
        -- by left.
        -- right. apply elem_of_cons. by left.
      * right. apply elem_of_cons. by right.
Qed.

Lemma below_bottom_none page cap_bot_y caption_re :
  (forall b, b ∈ get_text_blocks page ->
     follows_caption caption_re cap_bot_y b = false) ->
  below_bottom page cap_bot_y caption_re = y1 (rect page) - 5.
Proof.
  intros Hno. unfold below_bottom.
  destruct (filter _ _) as [|b rest] eqn:Hf; [done|].
  assert (Hb : b ∈ filter (fun b => Is_true (follows_caption caption_re cap_bot_y b))
                          (get_text_blocks page)).
  { unfold follows_caption. rewrite Hf. apply elem_of_cons. by left. }
  apply list_elem_of_filter in Hb as [Hb Hin].
  rewrite (Hno b Hin) in Hb. done.
Qed.

Lemma below_bottom_next page cap_bot_y caption_re b :
  b ∈ get_text_blocks page ->
  follows_caption caption_re cap_bot_y b = true ->
  (forall b', b' ∈ get_text_blocks page ->
     follows_caption caption_re cap_bot_y b' = true -> b1 b <= b1 b') ->
  below_bottom page cap_bot_y caption_re = b1 b - 3.
Proof.
  intros Hin Hb Hleast. unfold below_bottom.
  change (fun b0 => Is_true (matches caption_re (Text.strip (b4 b0))
                             && (b1 b0 >? cap_bot_y + 5)))
    with (fun b0 => Is_true (follows_caption caption_re cap_bot_y b0)).
  set (caps := filter _ _).
  assert (Hcaps : forall x, x ∈ caps <->
            follows_caption caption_re cap_bot_y x = true /\ x ∈ get_text_blocks page).
  { intros x. unfold caps. rewrite list_elem_of_filter, Is_true_true. done. }
  assert (Hbin : b ∈ caps) by (by apply Hcaps).
  destruct caps as [|c rest]; [by apply elem_of_nil in Hbin|].
  destruct (min_listZ_spec (b1 c) (map b1 rest)) as (Hd & Hle & Hm).
  assert (Hlow : min_listZ (b1 c) (map b1 rest) <= b1 b).
  { apply elem_of_cons in Hbin as [->|Hbin]; [done|].
    apply Hle, list_elem_of_fmap. by exists b. }
  assert (Hhigh : b1 b <= min_listZ (b1 c) (map b1 rest)).
  { destruct Hm as [->|Hm].
    - apply Hleast; apply (Hcaps c), elem_of_cons; by left.
    - apply list_elem_of_fmap in Hm as (x & -> & Hx).
      apply Hleast; apply (Hcaps x), elem_of_cons; by right. }
  lia.
Qed.

(** C3 (amended). In supplementary mode, when the region above the
    caption yields no image (too small, trimmed to nothing, or trimmed
    below 20 rows or columns), the region below the caption is resolved:
    3 units inside the page's left and right edges, from caption-bottom
    + 3 down to the top - 3 of the nearest block, of either type, that
    matches the supplementary caption grammar and starts more than 5
    units below the caption's bottom, or to page-bottom - 5 if there is
    no such block.  The result of the extraction is then that of the
    region below; when it succeeds the image is the trimmed rendering of
    that region and the manifest entry carries the caption's own text. *)
Theorem C3_below_caption_fallback page (caption : Caption) (prev : option Z) mat :
  above_image gray_of page mat (clip page caption prev true) = None ->
  let bc := below_clip page caption true in
  let cap_bot_y := y1 (cap_rect caption) in
  x0 bc = x0 (rect page) + 3 /\ y0 bc = cap_bot_y + 3
  /\ x1 bc = x1 (rect page) - 3
  /\ ((forall b, b ∈ get_text_blocks page ->
         follows_caption CAPTION_RE_SI cap_bot_y b = false) ->
      y1 bc = y1 (rect page) - 5)
  /\ (forall b, b ∈ get_text_blocks page ->
        follows_caption CAPTION_RE_SI cap_bot_y b = true ->
        (forall b', b' ∈ get_text_blocks page ->
           follows_caption CAPTION_RE_SI cap_bot_y b' = true -> b1 b <= b1 b') ->
        y1 bc = b1 b - 3)
  /\ extract_figure_on gray_of page caption prev mat true
     = option_map (fun img => (img, cap_bot_y)) (below_image gray_of page mat bc)
  /\ (forall img, below_image gray_of page mat bc = Some img ->
        (20 <= height bc /\ 20 <= width bc
         /\ keep_if_large (trim_whitespace gray_of (get_pixmap page mat bc)) = Some img)
        /\ forall (doc : Document) out_dir (st : RunState),
             doc !! cap_page caption = Some page ->
             prev = prev_cap_bottom_by_page st !! cap_page caption ->
             cap_label caption ∉ extracted_labels st ->
             exists st',
               loop_body gray_of doc out_dir mat true st caption = Returned st'
               /\ manifest st' = manifest st ++ [entry_of out_dir caption]
               /\ m_caption_text (entry_of out_dir caption) = cap_caption_text caption
               /\ files st' !! m_path (entry_of out_dir caption) = Some (PngFile img)).
Proof.
  intros Habove bc cap_bot_y.
  assert (Hres : extract_figure_on gray_of page caption prev mat true
                 = option_map (fun img => (img, cap_bot_y))
                              (below_image gray_of page mat bc)).
  { unfold extract_figure_on. rewrite Habove. fold bc.
    destruct (below_image gray_of page mat bc); done. }
  split; [done|]. split; [done|]. split; [done|].
  split; [apply below_bottom_none|].
  split; [apply below_bottom_next|].
  split; [exact Hres|].
  intros img Hb. split; [by apply below_image_Some|].
  intros doc out_dir st Hpage Hprev Hnin.
  eexists. split.
  - apply loop_body_written; [done|]. unfold extract_figure.
    rewrite Hpage, <- Hprev, Hres, Hb. reflexivity.
  - cbn [manifest files]. split; [done|]. split; [done|]. apply lookup_insert_eq.
Qed.

(** C9. A caption that is skipped, because its label is already locked
    in or because extraction returned no image, leaves the manifest, the
    locked-in labels, the per-page previous-caption bottoms and the
    written files as they were (only a line is printed). *)
Theorem C9_skip_leaves_state doc out_dir mat si st cap :
  cap_label cap ∈ extracted_labels st
  \/ extract_figure gray_of doc cap
       (prev_cap_bottom_by_page st !! cap_page cap) mat si = Returned None ->
  exists st',
    loop_body gray_of doc out_dir mat si st cap = Returned st'
    /\ manifest st' = manifest st
    /\ extracted_labels st' = extracted_labels st
    /\ prev_cap_bottom_by_page st' = prev_cap_bottom_by_page st
    /\ files st' = files st.
Proof.
  intros H.
  destruct (decide (cap_label cap ∈ extracted_labels st)) as [Hin|Hnin].
  - eexists. split; [by apply loop_body_duplicate|]. done.
  - destruct H as [?|He]; [done|].
    eexists. split; [by apply loop_body_too_small|]. done.
Qed.

Lemma loop_body_labels_locked doc out_dir mat si st cap st' :
  labels_locked st ->
  loop_body gray_of doc out_dir mat si st cap = Returned st' ->
  labels_locked st'.
Proof.
  intros [Hnd Hsub] Hstep. unfold loop_body in Hstep.
  destruct (decide (cap_label cap ∈ extracted_labels st)) as [Hin|Hnin].
  { injection Hstep as <-. done. }
  destruct (extract_figure _ _ _ _ _ _) as [[[img cap_bottom]|]|]; [| |done].
  - injection Hstep as <-. unfold labels_locked. cbn [manifest extracted_labels].
    rewrite map_app. cbn [map m_label]. split.
    + apply NoDup_app. split; [done|]. split; [|apply NoDup_singleton].
      intros l Hl Hl'. apply list_elem_of_singleton in Hl'. subst l.
      by apply Hnin, Hsub.
    + intros l Hl. apply elem_of_app in Hl as [Hl|Hl].
      * apply elem_of_union. left. by apply Hsub.
      * apply elem_of_union. right. apply list_elem_of_singleton in Hl.
        by apply elem_of_singleton.
  - injection Hstep as <-. done.
Qed.

Lemma loop_labels_locked doc out_dir mat si captions st st' :
  labels_locked st ->
  loop gray_of doc out_dir mat si captions st = Returned st' ->
  labels_locked st'.
Proof.
  revert st. induction captions as [|cap rest IH]; intros st Hinv Hloop; simpl in Hloop.
  - by injection Hloop as <-.
  - destruct (loop_body _ _ _ _ _ _ _) as [st1|] eqn:Hstep; [|done].
    eapply IH; [|exact Hloop]. by eapply loop_body_labels_locked.
Qed.

(** Every caption found lies on a page of the document, so the loop
    never raises. *)
Lemma find_all_captions_page doc si cap :
  cap ∈ find_all_captions doc si -> is_Some (doc !! cap_page cap).
Proof.
  unfold find_all_captions. intros Hin.
  apply list_elem_of_In, in_concat in Hin as (l & Hl & Hcap).
  apply list_elem_of_In, elem_of_lookup_imap in Hl as (i & page & -> & Hpage).
  destruct (si && Nat.eqb i 0); [by destruct Hcap|].
  apply list_elem_of_In, list_elem_of_omap in Hcap as (b & _ & Hb).
  unfold caption_of_block in Hb.
  destruct (match_ _ _); [|done]. injection Hb as <-. by eexists.
Qed.

Lemma loop_body_returns doc out_dir mat si st cap :
  is_Some (doc !! cap_page cap) ->
  exists st', loop_body gray_of doc out_dir mat si st cap = Returned st'.
Proof.
  intros [page Hpage]. unfold loop_body, extract_figure. rewrite Hpage.
  destruct (decide _); [by eexists|].
  destruct (extract_figure_on _ _ _ _ _ _) as [[img cap_bottom]|]; by eexists.
Qed.

Lemma loop_returns doc out_dir mat si captions st :
  (forall cap, cap ∈ captions -> is_Some (doc !! cap_page cap)) ->
  exists st', loop gray_of doc out_dir mat si captions st = Returned st'.
Proof.
  revert st. induction captions as [|cap rest IH]; intros st Hpages; simpl.
  - by eexists.
  - destruct (loop_body_returns doc out_dir mat si st cap) as [st1 ->].
    { apply Hpages, elem_of_cons. by left. }
    apply IH. intros c Hc. apply Hpages, elem_of_cons. by right.
Qed.

Lemma run_manifest_NoDup doc out_dir si files0 :
  exists m fs out,
    run gray_of doc out_dir si files0 = Returned (m, fs, out)
    /\ NoDup (map m_label m)
    /\ (m = [] /\ fs = files0
        \/ fs !! path_join out_dir "manifest.json" = Some (JsonFile m)).
Proof.
  unfold run.
  destruct (find_all_captions doc si) as [|cap rest] eqn:Hcaps.
  { do 3 eexists. split; [done|]. split; [apply NoDup_nil_2|by left]. }
  destruct (loop_returns doc out_dir (ZOOM, ZOOM) si (cap :: rest)
              (mkState [] ∅ ∅ files0 [MsgMode si])) as [st Hst].
  { intros c Hc. apply (find_all_captions_page doc si). by rewrite Hcaps. }
  rewrite Hst. do 3 eexists. split; [done|].
  split; [|right; apply lookup_insert_eq].
  apply loop_labels_locked in Hst; [apply Hst|].
  split; [apply NoDup_nil_2|]. intros l Hl. by apply elem_of_nil in Hl.
Qed.

Lemma loop_body_same_results doc out_dir mat si st1 st2 cap :
  same_results st1 st2 ->
  same_outcome (loop_body gray_of doc out_dir mat si st1 cap)
               (loop_body gray_of doc out_dir mat si st2 cap).
Proof.
  intros (Hm & Hp & He & Hf). unfold loop_body. rewrite He, Hp.
  destruct (decide _); [done|].
  destruct (extract_figure _ _ _ _ _ _) as [[[img cap_bottom]|]|]; [|done|done].
  unfold same_outcome, same_results. cbn [manifest prev_cap_bottom_by_page
    extracted_labels files]. by rewrite Hm, Hf.
Qed.

Lemma loop_same_results doc out_dir mat si captions st1 st2 :
  same_results st1 st2 ->
  same_outcome (loop gray_of doc out_dir mat si captions st1)
               (loop gray_of doc out_dir mat si captions st2).
Proof.
  revert st1 st2. induction captions as [|cap rest IH]; intros st1 st2 Hsame; simpl.
  - done.
  - pose proof (loop_body_same_results doc out_dir mat si st1 st2 cap Hsame) as Hb.
    destruct (loop_body gray_of doc out_dir mat si st1 cap) as [st1'|];
      destruct (loop_body gray_of doc out_dir mat si st2 cap) as [st2'|];
      try done.
    by apply IH.
Qed.

(** A caption whose extraction fails has no effect on what the loop does
    with the captions after it. *)
Lemma loop_failed_caption_ignored doc out_dir mat si st cap rest :
  extract_figure gray_of doc cap (prev_cap_bottom_by_page st !! cap_page cap) mat si
  = Returned None ->
  same_outcome (loop gray_of doc out_dir mat si (cap :: rest) st)
               (loop gray_of doc out_dir mat si rest st).
Proof.
  intros Hfail. simpl.
  destruct (decide (cap_label cap ∈ extracted_labels st)) as [Hin|Hnin].
  - rewrite loop_body_duplicate by done. by apply loop_same_results.
  - rewrite loop_body_too_small by done. by apply loop_same_results.
Qed.

(** C1. (a) Every run returns, the labels of its manifest are pairwise
    distinct, and the manifest file, when the run writes one, holds that
    manifest.  (b) A caption whose label is locked in is skipped
    as a duplicate whatever the document holds: extraction is not
    consulted.  (c) A label enters the locked-in set only in an iteration
    whose extraction returned an image, and it is that caption's label.
    (d) If extraction fails for a caption, the next caption with the
    same label, if its extraction succeeds, is written and recorded.
    (e) More generally a caption whose extraction fails changes nothing
    in what the loop does with the captions that follow it: manifest,
    locked-in labels, previous-caption bottoms and files end up as if the
    failed caption had not been there. *)
Theorem C1_one_entry_per_label doc out_dir si files0 mat st c1 c2 :
  (exists m fs out,
      run gray_of doc out_dir si files0 = Returned (m, fs, out)
      /\ NoDup (map m_label m)
      /\ (m = [] /\ fs = files0
          \/ fs !! path_join out_dir "manifest.json" = Some (JsonFile m)))
  /\ (cap_label c1 ∈ extracted_labels st ->
      forall doc', loop_body gray_of doc' out_dir mat si st c1
        = Returned (say (MsgSkipDuplicate (cap_label c1) (cap_page c1 + 1)) st))
  /\ (forall st' l,
        loop_body gray_of doc out_dir mat si st c1 = Returned st' ->
        l ∈ extracted_labels st' -> l ∉ extracted_labels st ->
        l = cap_label c1
        /\ exists img cap_bottom,
             extract_figure gray_of doc c1
               (prev_cap_bottom_by_page st !! cap_page c1) mat si
             = Returned (Some (img, cap_bottom)))
  /\ (cap_label c1 = cap_label c2 ->
      cap_label c1 ∉ extracted_labels st ->
      extract_figure gray_of doc c1
        (prev_cap_bottom_by_page st !! cap_page c1) mat si = Returned None ->
      forall img cap_bottom,
        extract_figure gray_of doc c2
          (prev_cap_bottom_by_page st !! cap_page c2) mat si
        = Returned (Some (img, cap_bottom)) ->
        exists st1 st2,
          loop_body gray_of doc out_dir mat si st c1 = Returned st1
          /\ extracted_labels st1 = extracted_labels st
          /\ loop_body gray_of doc out_dir mat si st1 c2 = Returned st2
          /\ manifest st2 = manifest st ++ [entry_of out_dir c2]
          /\ cap_label c2 ∈ extracted_labels st2
          /\ files st2 !! m_path (entry_of out_dir c2) = Some (PngFile img))
  /\ (extract_figure gray_of doc c1
        (prev_cap_bottom_by_page st !! cap_page c1) mat si = Returned None ->
      forall rest,
        same_outcome (loop gray_of doc out_dir mat si (c1 :: rest) st)
                     (loop gray_of doc out_dir mat si rest st)).
Proof.
  split; [apply run_manifest_NoDup|].
  split; [intros Hin doc'; by apply loop_body_duplicate|].
  split.
  - intros st' l Hstep Hl Hnl. unfold loop_body in Hstep.
    destruct (decide (cap_label c1 ∈ extracted_labels st)) as [Hin|Hnin].
    { injection Hstep as <-. done. }
    destruct (extract_figure _ _ _ _ _ _) as [[[img cap_bottom]|]|]; [| |done].
    + injection Hstep as <-. cbn [extracted_labels] in Hl.
      apply elem_of_union in Hl as [Hl|Hl]; [done|].
      apply elem_of_singleton in Hl. split; [done|]. by do 2 eexists.
    + injection Hstep as <-. done.
  - split; [|intros Hfail rest; by apply loop_failed_caption_ignored].
    intros Hlab Hnin Hfail img cap_bottom Hok.
    do 2 eexists. split; [by apply loop_body_too_small|].
    split; [done|].
    split; [apply loop_body_written; [by rewrite <- Hlab|exact Hok]|].
    cbn [manifest extracted_labels files say].
    split; [done|]. split; [apply elem_of_union; right; by apply elem_of_singleton|].
    apply lookup_insert_eq.
Qed.

(** ** Documents without captions (C2) *)





(** ** The trimmer returns a crop of its input (C10) *)

Lemma lookup_slice {A} (a b : nat) (l : list A) (i : nat) :
  (i < b - a)%nat -> slice a b l !! i = l !! (a + i)%nat.
Proof.
  intros Hi. unfold slice. rewrite lookup_take_lt by done. apply lookup_drop.
Qed.

Lemma length_slice {A} (a b : nat) (l : list A) :
  (b <= length l)%nat -> length (slice a b l) = (b - a)%nat.
Proof. intros Hb. unfold slice. rewrite length_take, length_drop. lia. Qed.

Lemma crop_spec {A} (r0 r1 c0 c1 : nat) (img : list (list A)) :
  (r1 <= shape0 img)%nat -> rectangular img -> (c1 <= shape1 img)%nat ->
  shape0 (crop r0 r1 c0 c1 img) = (r1 - r0)%nat
  /\ Forall (fun row => length row = (c1 - c0)%nat) (crop r0 r1 c0 c1 img)
  /\ forall i j, (i < r1 - r0)%nat -> (j < c1 - c0)%nat ->
       pixel_at (crop r0 r1 c0 c1 img) i j = pixel_at img (r0 + i) (c0 + j).
Proof.
  intros Hr Hrect Hc. unfold crop, shape0 in *. split; [|split].
  - rewrite length_map. by apply length_slice.
  - apply Forall_fmap. unfold slice at 2.
    apply Forall_take, Forall_drop.
    eapply Forall_impl; [exact Hrect|]. intros row Hrow. cbv beta in *.
    apply length_slice. lia.
  - intros i j Hi Hj. unfold pixel_at.
    change (map (slice c0 c1) (slice r0 r1 img))
      with (slice c0 c1 <$> slice r0 r1 img).
    rewrite list_lookup_fmap, lookup_slice by done.
    destruct (img !! (r0 + i)%nat) as [row|]; [|done]. simpl.
    by apply lookup_slice.
Qed.

Lemma argwhere_bounds (mask : list (list bool)) (r c : nat) :
  (r, c) ∈ argwhere mask ->
  exists row, mask !! r = Some row /\ (c < length row)%nat.
Proof.
  unfold argwhere. intros Hin.
  apply list_elem_of_In, in_concat in Hin as (l & Hl & Hin).
  apply list_elem_of_In, elem_of_lookup_imap in Hl as (i & row & -> & Hrow).
  apply in_concat in Hin as (l & Hl & Hin).
  apply list_elem_of_In, elem_of_lookup_imap in Hl as (j & v & -> & Hv).
  destruct v; [|by destruct Hin].
  destruct Hin as [[= <- <-]|[]].
  exists row. split; [done|]. by eapply lookup_lt_Some.
Qed.

Lemma min_list_le (d : nat) (l : list nat) : (min_list d l <= d)%nat.
Proof.
  unfold min_list. revert d. induction l as [|x l IH]; intros d; simpl; [lia|].
  specialize (IH (Nat.min d x)). lia.
Qed.

Lemma max_list_ge (d : nat) (l : list nat) : (d <= max_list d l)%nat.
Proof.
  unfold max_list. revert d. induction l as [|x l IH]; intros d; simpl; [lia|].
  specialize (IH (Nat.max d x)). lia.
Qed.

Lemma max_list_lt (d n : nat) (l : list nat) :
  (d < n)%nat -> Forall (fun x => (x < n)%nat) l -> (max_list d l < n)%nat.
Proof.
  unfold max_list. revert d. induction l as [|x l IH]; intros d Hd Hl; simpl; [lia|].
  inversion Hl; subst. apply IH; [lia|done].
Qed.

Lemma range_down_gt (hi lo c : nat) : In c (range_down hi lo) -> (lo < c)%nat.
Proof.
  unfold range_down. intros Hin. apply in_rev, in_seq in Hin. lia.
Qed.

Lemma shape1_map {A B} (f : A -> B) (img : list (list A)) :
  shape1 (map (map f) img) = shape1 img.
Proof. destruct img as [|row rest]; [done|]. simpl. apply length_map. Qed.

Lemma trim_whitespace_with_crop (img : Image (Pixel := Pixel)) pad wt dt out :
  rectangular img ->
  trim_whitespace_with gray_of img pad wt dt = Some out ->
  exists r0 r1 c0 c1 : nat,
    (r0 < r1 <= shape0 img)%nat /\ (c0 < c1 <= shape1 img)%nat
    /\ out = crop r0 r1 c0 c1 img.
Proof.
  intros Hrect. unfold trim_whitespace_with.
  set (gray := map (map gray_of) img).
  set (ts := dark_rows dt wt gray 0 0).
  set (mask := map (map (fun v => v <? wt)) (skipn ts gray)).
  assert (Hh : shape0 gray = shape0 img) by apply length_map.
  assert (Hw : shape1 gray = shape1 img) by apply shape1_map.
  assert (Hmask : length mask = (shape0 img - ts)%nat).
  { unfold mask. rewrite length_map, length_drop. unfold shape0 in Hh. by rewrite Hh. }
  assert (Hrows : forall r row, mask !! r = Some row -> length row = shape1 img).
  { intros r row Hr. unfold mask in Hr.
    change (map (map (fun v => v <? wt)) (skipn ts gray))
      with (map (fun v => v <? wt) <$> drop ts gray) in Hr.
    apply list_lookup_fmap_Some in Hr as (grow & -> & Hg).
    rewrite length_map. rewrite lookup_drop in Hg. unfold gray in Hg.
    change (map (map gray_of) img) with (map gray_of <$> img) in Hg.
    apply list_lookup_fmap_Some in Hg as (irow & -> & Hi).
    rewrite length_map. eapply Forall_lookup in Hrect; [exact Hrect|exact Hi]. }
  assert (Hcoord : forall r c, (r, c) ∈ argwhere mask ->
            (r < shape0 img - ts)%nat /\ (c < shape1 img)%nat).
  { intros r c Hin. apply argwhere_bounds in Hin as (row & Hrow & Hc).
    rewrite (Hrows r row Hrow) in Hc. split; [|done].
    rewrite <- Hmask. by eapply lookup_lt_Some. }
  destruct (argwhere mask) as [|[r c] rest] eqn:Hcoords; [done|].
  cbn [coords_min coords_max].
  set (ymin := min_list r (map fst rest)). set (xmin := min_list c (map snd rest)).
  set (ymax := max_list r (map fst rest)). set (xmax := max_list c (map snd rest)).
  destruct (Hcoord r c) as [Hr Hc]; [apply elem_of_cons; by left|].
  assert (Hymin : (ymin <= r)%nat) by apply min_list_le.
  assert (Hxmin : (xmin <= c)%nat) by apply min_list_le.
  assert (Hxmax : (c <= xmax)%nat) by apply max_list_ge.
  assert (Hymax : (ymax < shape0 img - ts)%nat).
  { apply max_list_lt; [done|]. apply Forall_fmap, Forall_forall.
    intros [r' c'] Hin. simpl. apply (Hcoord r' c'), elem_of_cons. by right. }
  assert (Hymax' : (r <= ymax)%nat) by apply max_list_ge.
  set (right_end := match find _ _ with Some c0 => c0 | None => xmax end).
  assert (Hright : (xmin <= right_end)%nat).
  { unfold right_end. destruct (find _ _) as [c0|] eqn:Hfind; [|lia].
    apply find_some in Hfind as [Hin _]. apply range_down_gt in Hin. lia. }
  intros [= <-]. rewrite Hh, Hw.
  eexists _, _, _, _. split; [|split; [|reflexivity]]; lia.
Qed.

(** C10. When the trimmer returns a buffer, that buffer is a crop
    [img[r0:r1, c0:c1]] of its (rectangular) input with [r0 < r1 <= h]
    and [c0 < c1 <= w]: it has r1 - r0 rows of c1 - c0 pixels, the pixel
    at (i, j) of the result is the pixel at (r0 + i, c0 + j) of the input,
    and neither its height nor its width exceeds the input's. *)
Theorem C10_trim_returns_crop (img out : Image (Pixel := Pixel)) :
  rectangular img ->
  trim_whitespace gray_of img = Some out ->
  exists r0 r1 c0 c1 : nat,
    (r0 < r1 <= shape0 img)%nat /\ (c0 < c1 <= shape1 img)%nat
    /\ out = crop r0 r1 c0 c1 img
    /\ shape0 out = (r1 - r0)%nat
    /\ Forall (fun row => length row = (c1 - c0)%nat) out
    /\ (forall i j, (i < r1 - r0)%nat -> (j < c1 - c0)%nat ->
          pixel_at out i j = pixel_at img (r0 + i) (c0 + j))
    /\ (shape0 out <= shape0 img)%nat
    /\ (shape1 out <= shape1 img)%nat.
Proof.
  intros Hrect Htrim.
  destruct (trim_whitespace_with_crop img _ _ _ out Hrect Htrim)
    as (r0 & r1 & c0 & c1 & Hr & Hc & ->).
  destruct (crop_spec r0 r1 c0 c1 img) as (H0 & Hrows & Hpix); [lia|done|lia|].
  exists r0, r1, c0, c1. repeat split; try done; try lia.
  destruct (crop r0 r1 c0 c1 img) as [|row rest] eqn:Hcrop; [simpl; lia|].
  apply Forall_cons_1 in Hrows as [Hrow _]. simpl. lia.
Qed.

(** * Further properties of the extractor *)

(** ** Pass 1 of the trimmer *)

Lemma dark_rows_spec dt wt (rows : list (list Z)) (r ts : nat) :
  (ts <= r)%nat ->
  let res := dark_rows dt wt rows r ts in
  (res <= r + length rows)%nat
  /\ (res = ts
      \/ exists k row, rows !! k = Some row /\ mean_lt row dt = true
                       /\ res = (r + k + 1)%nat)
  /\ (forall k row, rows !! k = Some row ->
        mean_lt row dt = false -> mean_gt row (wt - 5) = true ->
        (res <= r + k)%nat)
  /\ (forall k row, rows !! k = Some row -> mean_lt row dt = true ->
        (forall j rowj, (j < k)%nat -> rows !! j = Some rowj ->
           mean_lt rowj dt = true \/ mean_gt rowj (wt - 5) = false) ->
        (r + k < res)%nat).
Proof.
  revert r ts. induction rows as [|row rest IH]; intros r ts Hts; simpl.
  - split; [lia|]. split; [by left|]. split; intros k row Hk; done.
  - destruct (mean_lt row dt) eqn:Hdark.
    + destruct (IH (S r) (S r)) as (Hle & Hcut & Hwhite & Hall); [lia|].
      split; [lia|]. split; [|split].
      * right. destruct Hcut as [->|(k & row' & Hk & Hd & ->)].
        -- exists 0%nat, row. split; [done|]. split; [done|lia].
        -- exists (S k), row'. split; [done|]. split; [done|lia].
      * intros [|k] row' Hk Hnd Hw.
        -- simpl in Hk. injection Hk as <-. congruence.
        -- specialize (Hwhite k row' Hk Hnd Hw). lia.
      * intros [|k] row' Hk Hd Hbefore.
        -- destruct Hcut as [->|(k & ? & _ & _ & ->)]; lia.
        -- assert ((S r + k < dark_rows dt wt rest (S r) (S r))%nat); [|lia].
           apply (Hall k row' Hk Hd). intros j rowj Hj Hrowj.
           apply (Hbefore (S j) rowj); [lia|done].
    + destruct (mean_gt row (wt - 5)) eqn:Hwhite.
      * split; [lia|]. split; [by left|]. split.
        -- intros k row' _ _ _. lia.
        -- intros [|k] row' Hk Hd Hbefore.
           ++ simpl in Hk. injection Hk as <-. congruence.
           ++ destruct (Hbefore 0%nat row) as [?|?]; [lia|done|congruence|congruence].
      * destruct (IH (S r) ts) as (Hle & Hcut & Hw & Hall); [lia|].
        split; [lia|]. split; [|split].
        -- destruct Hcut as [->|(k & row' & Hk & Hd & ->)]; [by left|].
           right. exists (S k), row'. split; [done|]. split; [done|lia].
        -- intros [|k] row' Hk Hnd Hw'.
           ++ simpl in Hk. injection Hk as <-. congruence.
           ++ specialize (Hw k row' Hk Hnd Hw'). lia.
        -- intros [|k] row' Hk Hd Hbefore.
           ++ simpl in Hk. injection Hk as <-. congruence.
           ++ assert ((S r + k < dark_rows dt wt rest (S r) ts)%nat); [|lia].
              apply (Hall k row' Hk Hd). intros j rowj Hj Hrowj.
              apply (Hbefore (S j) rowj); [lia|done].
Qed.

Lemma gray_row_lookup (img : Image (Pixel := Pixel)) (k : nat) (grow : list Z) :
  map (map gray_of) img !! k = Some grow <->
  exists row, img !! k = Some row /\ grow = map gray_of row.
Proof.
  change (map (map gray_of) img) with (map gray_of <$> img).
  rewrite list_lookup_fmap_Some. split.
  - intros (row & -> & Hrow). by exists row.
  - intros (row & Hrow & ->). by exists row.
Qed.

Lemma top_start_of_spec (img : Image (Pixel := Pixel)) :
  let ts := top_start_of gray_of img in
  (ts <= shape0 img)%nat
  /\ (ts = 0%nat \/ row_mean_lt gray_of img (ts - 1) 200)
  /\ (forall k, row_mean_gt gray_of img k 240 -> (ts <= k)%nat)
  /\ (forall k, row_mean_lt gray_of img k 200 ->
        (forall j, (j < k)%nat -> ~ row_mean_gt gray_of img j 240) ->
        (k < ts)%nat).
Proof.
  intros ts.
  destruct (dark_rows_spec 200 245 (map (map gray_of) img) 0 0 (Nat.le_refl 0))
    as (Hle & Hcut & Hwhite & Hall).
  fold (top_start_with gray_of img 245 200) in Hle, Hcut, Hwhite, Hall.
  fold (top_start_of gray_of img) in Hle, Hcut, Hwhite, Hall. fold ts in Hle, Hcut, Hwhite, Hall.
  split; [by rewrite length_map in Hle|]. split; [|split].
  - destruct Hcut as [?|(k & grow & Hk & Hd & Hres)]; [by left|]. right.
    apply gray_row_lookup in Hk as (row & Hrow & ->).
    exists row. split; [|done]. by replace (ts - 1)%nat with k by lia.
  - intros k (row & Hrow & Hgt).
    apply (Hwhite k (map gray_of row)); [apply gray_row_lookup; by exists row| |done].
    unfold mean_lt, mean_gt in *. apply Z.ltb_ge. apply Z.gtb_lt in Hgt. lia.
  - intros k (row & Hrow & Hlt) Hbefore.
    apply (Hall k (map gray_of row)); [apply gray_row_lookup; by exists row|done|].
    intros j growj Hj Hgj. apply gray_row_lookup in Hgj as (rowj & Hrowj & ->).
    destruct (mean_gt (map gray_of rowj) (245 - 5)) eqn:Hg; [|by right].
    exfalso. apply (Hbefore j Hj). by exists rowj.
Qed.

(** X1. Pass 1, with the default thresholds: the cut [top_start]
    lies within the buffer; it is 0 or lies just below a row whose mean
    is under 200; it never lies below a row whose mean exceeds 240; and
    every row with mean under 200 that no such clearly white row precedes
    is cut away. *)
Theorem X_pass1_cut (img : Image (Pixel := Pixel)) :
  let ts := top_start_of gray_of img in
  (ts <= shape0 img)%nat
  /\ (ts = 0%nat \/ row_mean_lt gray_of img (ts - 1) 200)
  /\ (forall k, row_mean_gt gray_of img k 240 -> (ts <= k)%nat)
  /\ (forall k, row_mean_lt gray_of img k 200 ->
        (forall j, (j < k)%nat -> ~ row_mean_gt gray_of img j 240) ->
        (k < ts)%nat).
Proof. exact (top_start_of_spec img). Qed.

(** ** Passes 2 and 3 of the trimmer *)

Lemma argwhere_iff (mask : list (list bool)) (r c : nat) :
  (r, c) ∈ argwhere mask <->
  exists row, mask !! r = Some row /\ row !! c = Some true.
Proof.
  unfold argwhere. split.
  - intros Hin.
    apply list_elem_of_In, in_concat in Hin as (l & Hl & Hin).
    apply list_elem_of_In, elem_of_lookup_imap in Hl as (i & row & -> & Hrow).
    apply in_concat in Hin as (l & Hl & Hin).
    apply list_elem_of_In, elem_of_lookup_imap in Hl as (j & v & -> & Hv).
    destruct v; [|by destruct Hin].
    destruct Hin as [[= <- <-]|[]]. by exists row.
  - intros (row & Hrow & Hc).
    apply list_elem_of_In, in_concat.
    eexists. split.
    + apply list_elem_of_In. by apply (elem_of_lookup_imap_2 _ mask row r).
    + apply in_concat. exists [(r, c)]. split; [|by left].
      apply list_elem_of_In.
      by apply (elem_of_lookup_imap_2
                  (fun c (v : bool) => if v then [(r, c)] else []) row true c).
Qed.

(** The mask of pass 2, read on the input buffer. *)
Lemma mask_true_iff (img : Image (Pixel := Pixel)) (ts : nat) (wt : Z) (r c : nat) :
  (exists mrow,
     map (map (fun v => v <? wt)) (skipn ts (map (map gray_of) img)) !! r = Some mrow
     /\ mrow !! c = Some true)
  <-> exists p, pixel_at img (ts + r) c = Some p /\ gray_of p < wt.
Proof.
  change (map (map (fun v => v <? wt)) (skipn ts (map (map gray_of) img)))
    with (map (fun v => v <? wt) <$> drop ts (map gray_of <$> img)).
  unfold pixel_at. split.
  - intros (mrow & Hm & Hc).
    apply list_lookup_fmap_Some in Hm as (grow & -> & Hg).
    rewrite lookup_drop in Hg.
    apply list_lookup_fmap_Some in Hg as (row & -> & Hrow).
    rewrite Hrow.
    change (map (fun v => v <? wt) (map gray_of row))
      with ((fun v => v <? wt) <$> (gray_of <$> row)) in Hc.
    apply list_lookup_fmap_Some in Hc as (v & Hlt & Hv).
    apply list_lookup_fmap_Some in Hv as (p & -> & Hp).
    exists p. split; [done|]. symmetry in Hlt. by apply Z.ltb_lt in Hlt.
  - intros (p & Hp & Hlt).
    match type of Hp with
    | match ?t with _ => _ end = _ => destruct t as [row|] eqn:Hrow; [|done]
    end.
    exists (map (fun v => v <? wt) (map gray_of row)). split.
    + apply list_lookup_fmap_Some. exists (map gray_of row). split; [done|].
      rewrite lookup_drop. apply list_lookup_fmap_Some. by exists row.
    + change (map (fun v => v <? wt) (map gray_of row))
        with ((fun v => v <? wt) <$> (gray_of <$> row)).
      rewrite !list_lookup_fmap, Hp. simpl. f_equal. by apply Z.ltb_lt.
Qed.

Lemma trim_None_iff_no_coords (img : Image (Pixel := Pixel)) pad wt dt :
  trim_whitespace_with gray_of img pad wt dt = None
  <-> argwhere (map (map (fun v => v <? wt))
                    (skipn (top_start_with gray_of img wt dt)
                           (map (map gray_of) img))) = [].
Proof.
  unfold trim_whitespace_with, top_start_with.
  destruct (argwhere _) as [|[r c] rest]; [done|].
  cbn [coords_min coords_max]. done.
Qed.

Lemma pixel_at_Some {A} (img : list (list A)) (i j : nat) (p : A) :
  pixel_at img i j = Some p <-> exists row, img !! i = Some row /\ row !! j = Some p.
Proof.
  unfold pixel_at. destruct (img !! i) as [row|].
  - split; [intros; by exists row|]. by intros (row' & [= <-] & Hp).
  - split; [done|]. by intros (row' & ? & _).
Qed.

Lemma pixel_at_lt {A} (img : list (list A)) (i j : nat) (p : A) :
  pixel_at img i j = Some p -> (i < shape0 img)%nat.
Proof.
  unfold pixel_at. intros Hp.
  match type of Hp with
  | match ?t with _ => _ end = _ => destruct t as [row|] eqn:Hrow; [|done]
  end.
  by eapply lookup_lt_Some.
Qed.

Lemma trim_with_None_iff (img : Image (Pixel := Pixel)) pad wt dt :
  trim_whitespace_with gray_of img pad wt dt = None
  <-> forall i j p, (top_start_with gray_of img wt dt <= i)%nat ->
        pixel_at img i j = Some p -> wt <= gray_of p.
Proof.
  rewrite trim_None_iff_no_coords.
  set (ts := top_start_with gray_of img wt dt). split.
  - intros Hnil i j p Hi Hp.
    destruct (Z.lt_ge_cases (gray_of p) wt) as [Hlt|]; [|done]. exfalso.
    assert (Hin : ((i - ts)%nat, j) ∈
              argwhere (map (map (fun v => v <? wt)) (skipn ts (map (map gray_of) img)))).
    { apply argwhere_iff, mask_true_iff. exists p.
      by replace (ts + (i - ts))%nat with i by lia. }
    rewrite Hnil in Hin. by apply elem_of_nil in Hin.
  - intros Hwhite.
    destruct (argwhere _) as [|[r c] rest] eqn:Hcoords; [done|]. exfalso.
    assert (Hin : (r, c) ∈
              argwhere (map (map (fun v => v <? wt)) (skipn ts (map (map gray_of) img))))
      by (rewrite Hcoords; apply elem_of_cons; by left).
    apply argwhere_iff, mask_true_iff in Hin as (p & Hp & Hlt).
    specialize (Hwhite (ts + r)%nat c p ltac:(lia) Hp). lia.
Qed.

(** X2. The trimmer returns [None] exactly when no pixel at or
    below the cut of pass 1 is darker than 245: rows removed by the first
    pass do not count, whatever they hold. *)
Theorem X_trim_None_iff (img : Image (Pixel := Pixel)) :
  trim_whitespace gray_of img = None
  <-> forall i j p, (top_start_of gray_of img <= i)%nat ->
        pixel_at img i j = Some p -> 245 <= gray_of p.
Proof. apply trim_with_None_iff. Qed.

(** X3. A buffer every row of which has a mean gray level under 200 is
    removed whole by the first pass: the trimmer returns [None] for it,
    however much it holds. *)
Theorem X_trim_dark_buffer (img : Image (Pixel := Pixel)) :
  (forall k, (k < shape0 img)%nat -> row_mean_lt gray_of img k 200) ->
  trim_whitespace gray_of img = None.
Proof.
  intros Hdark. apply trim_with_None_iff. intros i j p Hi Hp.
  fold (top_start_of gray_of img) in Hi.
  apply pixel_at_lt in Hp. exfalso.
  destruct (top_start_of_spec img) as (_ & _ & _ & Hall).
  assert (Hcut : (i < top_start_of gray_of img)%nat); [|lia].
  apply Hall; [by apply Hdark|].
  intros j' Hj' (row & Hrow & Hgt).
  destruct (Hdark j') as (row' & Hrow' & Hlt); [lia|].
  rewrite Hrow in Hrow'. injection Hrow' as <-.
  unfold mean_lt, mean_gt in *. apply Z.ltb_lt in Hlt. apply Z.gtb_lt in Hgt. lia.
Qed.

Lemma min_list_elem (d x : nat) (l : list nat) :
  x ∈ d :: l -> (min_list d l <= x)%nat.
Proof.
  unfold min_list. revert d. induction l as [|y l IH]; intros d Hx; simpl.
  - apply list_elem_of_singleton in Hx. lia.
  - pose proof (min_list_le (Nat.min d y) l) as Hle. unfold min_list in Hle.
    apply elem_of_cons in Hx as [->|Hx]; [lia|].
    apply elem_of_cons in Hx as [->|Hx]; [lia|].
    apply IH, elem_of_cons. by right.
Qed.

Lemma max_list_elem (d x : nat) (l : list nat) :
  x ∈ d :: l -> (x <= max_list d l)%nat.
Proof.
  unfold max_list. revert d. induction l as [|y l IH]; intros d Hx; simpl.
  - apply list_elem_of_singleton in Hx. lia.
  - pose proof (max_list_ge (Nat.max d y) l) as Hge. unfold max_list in Hge.
    apply elem_of_cons in Hx as [->|Hx]; [lia|].
    apply elem_of_cons in Hx as [->|Hx]; [lia|].
    apply IH, elem_of_cons. by right.
Qed.

Lemma max_list_in (d : nat) (l : list nat) : max_list d l ∈ d :: l.
Proof.
  unfold max_list. revert d. induction l as [|y l IH]; intros d; simpl.
  - apply elem_of_cons. by left.
  - specialize (IH (Nat.max d y)).
    apply elem_of_cons in IH as [Heq|Hin].
    + rewrite Heq. destruct (Nat.max_spec d y) as [[_ ->]|[_ ->]].
      * apply elem_of_cons; right. apply elem_of_cons; by left.
      * apply elem_of_cons; by left.
    + apply elem_of_cons; right. apply elem_of_cons; by right.
Qed.

Lemma fold_min_lt_iff (rest : list Z) (v t : Z) :
  fold_left Z.min rest v < t <-> exists x, x ∈ v :: rest /\ x < t.
Proof.
  revert v. induction rest as [|y rest IH]; intros v; simpl.
  - split; [intros; exists v; split; [apply elem_of_cons; by left|done]|].
    intros (x & Hx & Hlt). apply list_elem_of_singleton in Hx. by subst.
  - rewrite IH. split.
    + intros (x & Hx & Hlt). apply elem_of_cons in Hx as [->|Hx].
      * destruct (Z.min_spec v y) as [[_ Heq]|[_ Heq]]; rewrite Heq in Hlt.
        -- exists v. split; [apply elem_of_cons; by left|done].
        -- exists y. split; [apply elem_of_cons; right; apply elem_of_cons; by left|done].
      * exists x. split; [do 2 (apply elem_of_cons; right); done|done].
    + intros (x & Hx & Hlt). apply elem_of_cons in Hx as [->|Hx].
      * exists (Z.min v y). split; [apply elem_of_cons; by left|lia].
      * apply elem_of_cons in Hx as [->|Hx].
        -- exists (Z.min v y). split; [apply elem_of_cons; by left|lia].
        -- exists x. split; [apply elem_of_cons; by right|done].
Qed.

Lemma col_min_lt_iff (col : list Z) (t : Z) :
  col_min_lt col t = true <-> exists v, v ∈ col /\ v < t.
Proof.
  unfold col_min_lt. destruct col as [|v rest].
  - split; [done|]. intros (v & Hv & _). by apply elem_of_nil in Hv.
  - rewrite Z.ltb_lt. apply fold_min_lt_iff.
Qed.

Lemma find_rev_seq (f : nat -> bool) (a n c : nat) :
  (a <= c < a + n)%nat -> f c = true ->
  exists c', find f (rev (seq a n)) = Some c' /\ (c <= c')%nat.
Proof.
  revert c. induction n as [|n IH]; intros c Hc Hf; [lia|].
  rewrite seq_S, rev_app_distr. simpl.
  destruct (f (a + n)%nat) eqn:Hlast.
  - exists (a + n)%nat. split; [done|lia].
  - apply IH; [|done]. destruct (decide (c = (a + n)%nat)) as [->|]; [congruence|lia].
Qed.

Lemma find_range_down (f : nat -> bool) (hi lo c : nat) :
  (lo < c <= hi)%nat -> f c = true ->
  exists c', find f (range_down hi lo) = Some c' /\ (c <= c')%nat.
Proof. intros Hc Hf. unfold range_down. apply find_rev_seq; [lia|done]. Qed.

(** A column of the rows below the cut has a gray level under [t]. *)
Lemma column_dark_iff (img : Image (Pixel := Pixel)) (ts c : nat) (t : Z) :
  col_min_lt (column c (skipn ts (map (map gray_of) img))) t = true
  <-> exists i p, (ts <= i)%nat /\ pixel_at img i c = Some p /\ gray_of p < t.
Proof.
  rewrite col_min_lt_iff. unfold column. split.
  - intros (v & Hv & Hlt).
    apply list_elem_of_omap in Hv as (grow & Hg & Hc).
    apply list_elem_of_lookup in Hg as (r & Hr).
    rewrite lookup_drop in Hr. apply gray_row_lookup in Hr as (row & Hrow & ->).
    change (map gray_of row) with (gray_of <$> row) in Hc.
    apply list_lookup_fmap_Some in Hc as (p & -> & Hp).
    exists (ts + r)%nat, p. split; [lia|]. split; [|done].
    apply pixel_at_Some. by exists row.
  - intros (i & p & Hi & Hp & Hlt).
    apply pixel_at_Some in Hp as (row & Hrow & Hp).
    exists (gray_of p). split; [|done].
    apply list_elem_of_omap. exists (map gray_of row). split.
    + apply list_elem_of_lookup. exists (i - ts)%nat.
      rewrite lookup_drop. apply gray_row_lookup. exists row.
      by replace (ts + (i - ts))%nat with i by lia.
    + change (map gray_of row) with (gray_of <$> row).
      by rewrite list_lookup_fmap, Hp.
Qed.

(** What the trimmer computed when it returns a buffer: the crop bounds
    and how they sit with respect to the pixels below the cut. *)
Lemma trim_anatomy (img : Image (Pixel := Pixel)) (pad : nat) (wt dt : Z) out :
  rectangular img ->
  trim_whitespace_with gray_of img pad wt dt = Some out ->
  let ts := top_start_with gray_of img wt dt in
  let h := shape0 img in
  let w := shape1 img in
  exists ymin ymax xmin xmax right_end : nat,
    out = crop (ymin + ts - pad) (Nat.min h (ymax + ts + pad + 1))
               (xmin - pad) (Nat.min w (Nat.min (right_end + 12) (w - 1) + pad + 1)) img
    /\ (ymin <= ymax /\ ymax + ts < h /\ xmin <= xmax < w)%nat
    /\ (forall i j p, (ts <= i)%nat -> pixel_at img i j = Some p -> gray_of p < wt ->
          (ymin + ts <= i <= ymax + ts /\ xmin <= j <= xmax)%nat)
    /\ (exists i p, (ts <= i)%nat /\ pixel_at img i xmax = Some p /\ gray_of p < wt)
    /\ (xmin <= right_end)%nat
    /\ (right_end = xmax
        \/ exists i p, (ts <= i)%nat /\ pixel_at img i right_end = Some p
                       /\ gray_of p < 220)
    /\ (forall i j p, (ts <= i)%nat -> pixel_at img i j = Some p -> gray_of p < 220 ->
          (xmin < j)%nat -> (j <= right_end)%nat).
Proof.
  intros Hrect Htrim ts h w. unfold trim_whitespace_with in Htrim.
  fold (top_start_with gray_of img wt dt) in Htrim. fold ts in Htrim.
  assert (Hh : shape0 (map (map gray_of) img) = h) by apply length_map.
  assert (Hw : shape1 (map (map gray_of) img) = w) by apply shape1_map.
  rewrite Hh, Hw in Htrim.
  set (mask := map (map (fun v => v <? wt)) (skipn ts (map (map gray_of) img))) in *.
  assert (Hmask : forall r c, (r, c) ∈ argwhere mask <->
            exists p, pixel_at img (ts + r) c = Some p /\ gray_of p < wt).
  { intros r c. unfold mask. rewrite argwhere_iff. apply mask_true_iff. }
  assert (Hpix : forall i j p, pixel_at img i j = Some p -> (i < h /\ j < w)%nat).
  { intros i j p Hp. split; [by eapply pixel_at_lt|].
    apply pixel_at_Some in Hp as (row & Hrow & Hp).
    eapply Forall_lookup in Hrect; [|exact Hrow]. cbv beta in Hrect.
    apply lookup_lt_Some in Hp. unfold w. lia. }
  destruct (argwhere mask) as [|[r c] rest] eqn:Hcoords; [done|].
  cbn [coords_min coords_max] in Htrim.
  set (ymin := min_list r (map fst rest)) in *.
  set (xmin := min_list c (map snd rest)) in *.
  set (ymax := max_list r (map fst rest)) in *.
  set (xmax := max_list c (map snd rest)) in *.
  set (f := fun c0 => col_min_lt (column c0 (skipn ts (map (map gray_of) img))) 220) in *.
  set (right_end := match find f (range_down (w - 1) xmin) with
                    | Some c0 => c0 | None => xmax end) in *.
  injection Htrim as <-.
  assert (Hbox : forall r' c', (r', c') ∈ (r, c) :: rest ->
            (ymin <= r' <= ymax /\ xmin <= c' <= xmax)%nat).
  { intros r' c' Hin.
    assert (Hr' : r' ∈ r :: map fst rest).
    { apply elem_of_cons in Hin as [[= -> ->]|Hin]; [apply elem_of_cons; by left|].
      apply elem_of_cons; right. apply list_elem_of_fmap. by exists (r', c'). }
    assert (Hc' : c' ∈ c :: map snd rest).
    { apply elem_of_cons in Hin as [[= -> ->]|Hin]; [apply elem_of_cons; by left|].
      apply elem_of_cons; right. apply list_elem_of_fmap. by exists (r', c'). }
    split; split;
      [by apply min_list_elem|by apply max_list_elem
      |by apply min_list_elem|by apply max_list_elem]. }
  assert (Hin_max : forall m (g : nat * nat -> nat), m ∈ g (r, c) :: map g rest ->
            exists q, q ∈ (r, c) :: rest /\ g q = m).
  { intros m g Hm. apply elem_of_cons in Hm as [->|Hm].
    - exists (r, c). split; [apply elem_of_cons; by left|done].
    - apply list_elem_of_fmap in Hm as (q & -> & Hq).
      exists q. split; [apply elem_of_cons; by right|done]. }
  destruct (Hin_max ymax fst (max_list_in r (map fst rest))) as ([ry cy] & Hqy & Hy).
  destruct (Hin_max xmax snd (max_list_in c (map snd rest))) as ([rx cx] & Hqx & Hx).
  simpl in Hy, Hx. subst ry cx.
  apply Hmask in Hqy as (py & Hpy & _).
  pose proof (proj1 (Hmask rx xmax) Hqx) as (px & Hpx & Hltx).
  apply Hpix in Hpy as [Hymax _]. pose proof (Hpix _ _ _ Hpx) as [_ Hxmax].
  destruct (Hbox r c) as [Hy Hx]; [apply elem_of_cons; by left|].
  exists ymin, ymax, xmin, xmax, right_end.
  split; [done|]. split; [lia|]. split; [|split; [|split; [|split]]].
  - intros i j p Hi Hp Hlt.
    destruct (Hbox (i - ts)%nat j) as [Hr' Hc'].
    { apply Hmask. exists p. by replace (ts + (i - ts))%nat with i by lia. }
    lia.
  - exists (ts + rx)%nat, px. split; [lia|done].
  - unfold right_end. destruct (find f _) as [c0|] eqn:Hfind; [|lia].
    apply find_some in Hfind as [Hin _]. apply range_down_gt in Hin. lia.
  - unfold right_end. destruct (find f _) as [c0|] eqn:Hfind; [|by left].
    right. apply find_some in Hfind as [_ Hf]. by apply column_dark_iff in Hf.
  - intros i j p Hi Hp Hlt Hj.
    destruct (Hpix _ _ _ Hp) as [_ Hjw].
    destruct (find_range_down f (w - 1) xmin j) as (c' & Hfind & Hle); [lia| |].
    { apply column_dark_iff. by exists i, p. }
    unfold right_end. by rewrite Hfind.
Qed.

Lemma trim_keeps_dark_pixels (img out : Image (Pixel := Pixel)) :
  rectangular img ->
  trim_whitespace gray_of img = Some out ->
  exists r0 r1 c0 c1 : nat,
    out = crop r0 r1 c0 c1 img
    /\ (r1 <= shape0 img)%nat /\ (c1 <= shape1 img)%nat
    /\ forall i j p, (top_start_of gray_of img <= i)%nat ->
         pixel_at img i j = Some p ->
         (gray_of p < 245 -> (r0 <= i < r1)%nat /\ (c0 <= j)%nat)
         /\ (gray_of p < 220 ->
             (c0 <= j < c1)%nat
             /\ pixel_at out (i - r0) (j - c0) = Some p).
Proof.
  intros Hrect Htrim.
  destruct (trim_anatomy img 10 245 200 out Hrect Htrim)
    as (ymin & ymax & xmin & xmax & right_end & Hout & Hdim & Hbox & _ & Hre & _ & Hright).
  fold (top_start_of gray_of img) in Hout, Hdim, Hbox, Hright.
  set (ts := top_start_of gray_of img) in *.
  eexists _, _, _, _. split; [exact Hout|].
  split; [lia|]. split; [lia|].
  intros i j p Hi Hp.
  assert (H245 : gray_of p < 245 ->
            (ymin + ts - 10 <= i < Nat.min (shape0 img) (ymax + ts + 10 + 1))%nat
            /\ (xmin - 10 <= j)%nat).
  { intros Hlt. specialize (Hbox i j p Hi Hp Hlt). lia. }
  split; [exact H245|]. intros Hlt.
  destruct H245 as [Hrow Hcol]; [lia|].
  specialize (Hbox i j p Hi Hp ltac:(lia)).
  assert (Hj : (j <= right_end)%nat).
  { destruct (decide (xmin < j)%nat) as [Hgt|]; [|lia]. by apply (Hright i j p). }
  assert (Hjc : (xmin - 10 <= j
                 < Nat.min (shape1 img) (Nat.min (right_end + 12) (shape1 img - 1) + 10 + 1))%nat)
    by lia.
  split; [exact Hjc|].
  rewrite Hout.
  destruct (crop_spec (ymin + ts - 10) (Nat.min (shape0 img) (ymax + ts + 10 + 1))
              (xmin - 10)
              (Nat.min (shape1 img) (Nat.min (right_end + 12) (shape1 img - 1) + 10 + 1))
              img) as (_ & _ & Hpix); [lia|done|lia|].
  rewrite Hpix by lia. rewrite <- Hp. f_equal; lia.
Qed.

(** X4. When the trimmer returns a buffer it is a crop
    [img[r0:r1, c0:c1]] of its input such that, among the pixels at or
    below the cut of pass 1, every pixel darker than 245 lies within the
    rows of the crop and at or right of its left edge, and every pixel
    darker than 220 lies inside the crop and is found in the result at
    its shifted position: no pixel darker than 220 is ever trimmed away
    (lighter ones may be, on the right). *)
Theorem X_trim_keeps_dark_pixels (img out : Image (Pixel := Pixel)) :
  rectangular img ->
  trim_whitespace gray_of img = Some out ->
  exists r0 r1 c0 c1 : nat,
    out = crop r0 r1 c0 c1 img
    /\ (r1 <= shape0 img)%nat /\ (c1 <= shape1 img)%nat
    /\ forall i j p, (top_start_of gray_of img <= i)%nat ->
         pixel_at img i j = Some p ->
         (gray_of p < 245 -> (r0 <= i < r1)%nat /\ (c0 <= j)%nat)
         /\ (gray_of p < 220 ->
             (c0 <= j < c1)%nat
             /\ pixel_at out (i - r0) (j - c0) = Some p).
Proof. exact (trim_keeps_dark_pixels img out). Qed.

(** X5. If, at or below the cut of pass 1, every pixel in the
    columns right of column [k] is white (245 or more), the result is a
    crop that ends at column k + 23 at most (the content up to column k,
    12 columns of margin and 10 of padding), so it is at most k + 23
    wide: blank space on the right is removed. *)
Theorem X_trim_drops_white_right (img out : Image (Pixel := Pixel)) (k : nat) :
  rectangular img ->
  trim_whitespace gray_of img = Some out ->
  (forall i j p, (top_start_of gray_of img <= i)%nat ->
     pixel_at img i j = Some p -> (k < j)%nat -> 245 <= gray_of p) ->
  exists r0 r1 c0 c1 : nat,
    out = crop r0 r1 c0 c1 img
    /\ (c1 <= k + 23)%nat
    /\ (shape1 out <= k + 23)%nat.
Proof.
  intros Hrect Htrim Hwhite.
  destruct (trim_anatomy img 10 245 200 out Hrect Htrim)
    as (ymin & ymax & xmin & xmax & right_end & Hout & Hdim & _ & Hxmax & Hre & Hfound & _).
  fold (top_start_of gray_of img) in Hout, Hdim, Hxmax, Hfound.
  set (ts := top_start_of gray_of img) in *.
  assert (Hx : (xmax <= k)%nat).
  { destruct Hxmax as (i & p & Hi & Hp & Hlt).
    destruct (decide (k < xmax)%nat) as [Hgt|]; [|lia].
    specialize (Hwhite i xmax p Hi Hp Hgt). lia. }
  assert (Hr : (right_end <= k)%nat).
  { destruct Hfound as [->|(i & p & Hi & Hp & Hlt)]; [done|].
    destruct (decide (k < right_end)%nat) as [Hgt|]; [|lia].
    specialize (Hwhite i right_end p Hi Hp Hgt). lia. }
  eexists _, _, _, _. split; [exact Hout|].
  assert (Hc1 : (Nat.min (shape1 img) (Nat.min (right_end + 12) (shape1 img - 1) + 10 + 1)
                 <= k + 23)%nat) by lia.
  split; [exact Hc1|].
  destruct (crop_spec (ymin + ts - 10) (Nat.min (shape0 img) (ymax + ts + 10 + 1))
              (xmin - 10)
              (Nat.min (shape1 img) (Nat.min (right_end + 12) (shape1 img - 1) + 10 + 1))
              img) as (_ & Hrows & _); [lia|done|lia|].
  rewrite Hout.
  destruct (crop _ _ _ _ img) as [|row rest]; [simpl; lia|].
  apply Forall_cons_1 in Hrows as [Hrow _]. simpl. lia.
Qed.

(** ** Top boundary *)

Lemma get_page_content_top_spec page :
  let top := get_page_content_top page in
  2 < top
  /\ ((forall b, b ∈ get_text_blocks page -> header_block b = true -> b3 b <= 0) ->
      top = 10)
  /\ (forall b, b ∈ get_text_blocks page -> header_block b = true -> 0 < b3 b ->
        b3 b + 2 <= top)
  /\ (top = 10
      \/ exists b, b ∈ get_text_blocks page /\ header_block b = true
                   /\ 0 < b3 b /\ top = b3 b + 2).
Proof.
  unfold get_page_content_top.
  match goal with
  | |- context [fold_left ?g ?l 0] =>
      pose proof (fold_max_spec header_block b3 g l 0) as Hspec
  end.
  destruct Hspec as (Hge & Hub & Hex); [done|].
  match type of Hge with _ <= ?r => set (hb := r) in * end.
  cbv zeta. split; [|split; [|split]].
  - destruct (hb >? 0) eqn:H0; [apply Z.gtb_lt in H0|]; lia.
  - intros Hno. destruct Hex as [->|(b & Hb & Hh & Heq)]; [done|].
    specialize (Hno b Hb Hh).
    destruct (hb >? 0) eqn:H0; [apply Z.gtb_lt in H0; lia|done].
  - intros b Hb Hh Hpos. specialize (Hub b Hb Hh).
    assert (H0 : (hb >? 0) = true) by (apply Z.gtb_lt; lia).
    rewrite H0. lia.
  - destruct (hb >? 0) eqn:H0; [|by left]. apply Z.gtb_lt in H0.
    destruct Hex as [Heq|(b & Hb & Hh & Heq)]; [lia|].
    right. exists b. split; [done|]. split; [done|]. split; lia.
Qed.

Lemma get_page_content_top_max page b :
  b ∈ get_text_blocks page -> header_block b = true -> 0 < b3 b ->
  (forall b', b' ∈ get_text_blocks page -> header_block b' = true ->
              b3 b' <= b3 b) ->
  get_page_content_top page = b3 b + 2.
Proof.
  intros Hb Hh Hpos Hmax. unfold get_page_content_top.
  match goal with
  | |- context [fold_left ?g ?l 0] =>
      pose proof (fold_max_spec header_block b3 g l 0) as Hspec
  end.
  destruct Hspec as (Hge & Hub & Hex); [done|].
  match type of Hge with _ <= ?r => set (hb := r) in * end.
  cbv zeta. specialize (Hub b Hb Hh).
  assert (H0 : (hb >? 0) = true) by (apply Z.gtb_lt; lia).
  rewrite H0.
  destruct Hex as [Heq|(b' & Hb' & Hh' & Heq)]; [lia|].
  specialize (Hmax b' Hb' Hh'). lia.
Qed.

(** X6. The start of the page content is 10 when no block that
    starts in the top 40 units and holds a header keyword has a positive
    bottom; otherwise it is the greatest bottom of such blocks plus 2,
    also when that is less than 10.  It is always greater than 2. *)
Theorem X_page_content_top page :
  let top := get_page_content_top page in
  2 < top
  /\ ((forall b, b ∈ get_text_blocks page -> header_block b = true -> b3 b <= 0) ->
      top = 10)
  /\ (forall b, b ∈ get_text_blocks page -> header_block b = true -> 0 < b3 b ->
        (forall b', b' ∈ get_text_blocks page -> header_block b' = true ->
                    b3 b' <= b3 b) ->
        top = b3 b + 2)
  /\ (forall b, b ∈ get_text_blocks page -> header_block b = true -> 0 < b3 b ->
        b3 b + 2 <= top)
  /\ (top = 10
      \/ exists b, b ∈ get_text_blocks page /\ header_block b = true
                   /\ 0 < b3 b /\ top = b3 b + 2).
Proof.
  destruct (get_page_content_top_spec page) as (Hpos & Hnone & Hub & Hex).
  cbv zeta. split; [exact Hpos|]. split; [exact Hnone|].
  split; [apply get_page_content_top_max|]. split; [exact Hub|exact Hex].
Qed.

Lemma get_si_section_header_bottom_spec page above_y :
  let hb := get_si_section_header_bottom page above_y in
  0 <= hb
  /\ (forall b, b ∈ get_text_blocks page ->
        section_block_above above_y b = true -> b3 b <= hb)
  /\ (hb = 0 \/ exists b, b ∈ get_text_blocks page
                 /\ section_block_above above_y b = true /\ hb = b3 b).
Proof.
  unfold get_si_section_header_bottom.
  apply (fold_max_spec (section_block_above above_y) b3). done.
Qed.

Lemma fig_top_y_main page cap_top_y prev :
  fig_top_y page cap_top_y prev false = base_top page prev
  \/ exists d, d ∈ get_drawings page /\ is_dashed d = true
               /\ base_top page prev < y0 (drect d) < cap_top_y
               /\ fig_top_y page cap_top_y prev false = y0 (drect d) + 2.
Proof.
  unfold fig_top_y. cbv iota.
  destruct (get_dashed_separator_y page cap_top_y) as [m|] eqn:Hm; [|by left].
  destruct (dashed_fold_spec cap_top_y (get_drawings page) None) as (_ & _ & Hfrom).
  destruct (Hfrom m Hm) as [?|(d & Hd & Hdash & Hlt & ->)]; [done|].
  destruct (y0 (drect d) >? base_top page prev) eqn:Hgt; [|by left].
  apply Z.gtb_lt in Hgt. right. exists d. repeat split; done || lia.
Qed.

Lemma fold_left_pointwise {A B} (f g : A -> B -> A) (l : list B) (a : A) :
  (forall acc x, f acc x = g acc x) -> fold_left f l a = fold_left g l a.
Proof.
  intros Hfg. revert a. induction l as [|x l IH]; intros a; simpl; [done|].
  by rewrite Hfg, IH.
Qed.

Lemma fig_top_y_si page cap_top_y prev :
  fig_top_y page cap_top_y prev true
  = let last_text_y := si_last_text_y page cap_top_y prev in
    if (last_text_y >? si_scan_top page cap_top_y prev)
       && (cap_top_y - last_text_y >? 30)
    then Z.max (si_header_top page cap_top_y prev) (last_text_y + 3)
    else si_header_top page cap_top_y prev.
Proof.
  unfold fig_top_y, si_last_text_y. cbv iota zeta.
  fold (si_header_top page cap_top_y prev). fold (si_scan_top page cap_top_y prev).
  match goal with
  | |- context [fold_left ?f ?l ?a] =>
      rewrite (fold_left_pointwise f
                 (fun last_text_y b =>
                    if body_text_above (si_scan_top page cap_top_y prev) cap_top_y b
                    then Z.max last_text_y (b3 b) else last_text_y) l a)
  end; [done|].
  intros acc b. unfold body_text_above. simpl caption_re_of.
  destruct (_ >=? _); [|done]. destruct (_ <? _); [|done]. simpl.
  by destruct (negb _ && negb _ && _).
Qed.

Lemma si_header_top_ge page cap_top_y prev :
  base_top page prev <= si_header_top page cap_top_y prev.
Proof.
  unfold si_header_top.
  destruct (_ >? _) eqn:Hgt; [apply Z.gtb_lt in Hgt|]; lia.
Qed.

Lemma fig_top_y_si_ge page cap_top_y prev :
  si_header_top page cap_top_y prev <= fig_top_y page cap_top_y prev true.
Proof. rewrite fig_top_y_si. cbv zeta. destruct (_ && _); lia. Qed.

Lemma fig_top_y_ge_base page cap_top_y prev si :
  base_top page prev <= fig_top_y page cap_top_y prev si.
Proof.
  destruct si.
  - pose proof (si_header_top_ge page cap_top_y prev).
    pose proof (fig_top_y_si_ge page cap_top_y prev). lia.
  - destruct (fig_top_y_main page cap_top_y prev) as [->|(d & _ & _ & Hd & ->)]; lia.
Qed.

Lemma fig_top_y_main_moved page cap_top_y prev d :
  d ∈ get_drawings page -> is_dashed d = true ->
  base_top page prev < y0 (drect d) < cap_top_y ->
  exists d', d' ∈ get_drawings page /\ is_dashed d' = true
    /\ y0 (drect d) <= y0 (drect d') < cap_top_y
    /\ (forall d'', d'' ∈ get_drawings page -> is_dashed d'' = true ->
          y0 (drect d'') < cap_top_y -> y0 (drect d'') <= y0 (drect d'))
    /\ fig_top_y page cap_top_y prev false = y0 (drect d') + 2.
Proof.
  intros Hd Hdash [Hlo Hhi].
  destruct (dashed_fold_spec cap_top_y (get_drawings page) None)
    as (_ & Hin & Hfrom).
  destruct (Hin d Hd Hdash Hhi) as (m & Hm & Hle).
  destruct (Hfrom m Hm) as [?|(d' & Hd' & Hdash' & Hlt' & ->)]; [done|].
  exists d'. split; [done|]. split; [done|]. split; [lia|]. split.
  - intros d'' Hd'' Hdash'' Hlt''.
    destruct (Hin d'' Hd'' Hdash'' Hlt'') as (m' & Hm' & Hle').
    rewrite Hm in Hm'. injection Hm' as <-. exact Hle'.
  - unfold fig_top_y. cbv iota. unfold get_dashed_separator_y. rewrite Hm.
    destruct (y0 (drect d') >? base_top page prev) eqn:Hgt; [done|].
    rewrite Z.gtb_ltb in Hgt. apply Z.ltb_ge in Hgt. lia.
Qed.

(** X7. In main mode the top boundary is the baseline (previous
    caption's bottom + 3, or the start of the page content) unless a
    dashed drawing lies strictly between the baseline and the caption
    top.  Whenever one does, the boundary moves: it is the Y of the
    dashed drawing nearest above the caption top (the greatest Y among
    the dashed drawings above the caption top) plus 2.  Drawings without
    a dash pattern and drawings at or above the baseline never move
    it. *)
Theorem X_main_top_boundary page (cap_top_y : Z) (prev : option Z) :
  (fig_top_y page cap_top_y prev false = base_top page prev
   \/ exists d, d ∈ get_drawings page /\ is_dashed d = true
                /\ base_top page prev < y0 (drect d) < cap_top_y
                /\ fig_top_y page cap_top_y prev false = y0 (drect d) + 2)
  /\ ((forall d, d ∈ get_drawings page -> is_dashed d = true ->
         base_top page prev < y0 (drect d) -> cap_top_y <= y0 (drect d)) ->
      fig_top_y page cap_top_y prev false = base_top page prev)
  /\ (forall d, d ∈ get_drawings page -> is_dashed d = true ->
        base_top page prev < y0 (drect d) < cap_top_y ->
        exists d', d' ∈ get_drawings page /\ is_dashed d' = true
          /\ y0 (drect d) <= y0 (drect d') < cap_top_y
          /\ (forall d'', d'' ∈ get_drawings page -> is_dashed d'' = true ->
                y0 (drect d'') < cap_top_y -> y0 (drect d'') <= y0 (drect d'))
          /\ fig_top_y page cap_top_y prev false = y0 (drect d') + 2).
Proof.
  split; [apply fig_top_y_main|]. split; [|apply fig_top_y_main_moved].
  intros Hno.
  destruct (fig_top_y_main page cap_top_y prev) as [?|(d & Hd & Hdash & Hrange & _)];
    [done|].
  specialize (Hno d Hd Hdash). lia.
Qed.

(** X8. In both modes the top boundary is never above the baseline:
    a region never starts above the previous caption's bottom + 3 (or,
    without a previous caption, above the start of the page content). *)
Theorem X_top_not_above_baseline page (cap_top_y : Z) (prev : option Z) (si : bool) :
  base_top page prev <= fig_top_y page cap_top_y prev si
  /\ (forall p, prev = Some p -> p + 3 <= fig_top_y page cap_top_y prev si)
  /\ (prev = None -> 2 < fig_top_y page cap_top_y prev si).
Proof.
  pose proof (fig_top_y_ge_base page cap_top_y prev si) as Hge.
  split; [done|]. split.
  - intros p ->. exact Hge.
  - intros ->. simpl in Hge.
    destruct (get_page_content_top_spec page) as [Hpos _]. cbv zeta in Hpos. lia.
Qed.

(** X9. In supplementary mode the region starts at or below the
    bottom of every section-title block that ends above the caption top,
    and 2 units below it when that bottom is below the baseline. *)
Theorem X_si_section_title_excluded page (cap_top_y : Z) (prev : option Z) b :
  b ∈ get_text_blocks page ->
  matches SI_SECTION_RE (Text.strip (b4 b)) = true ->
  b3 b < cap_top_y ->
  b3 b <= fig_top_y page cap_top_y prev true
  /\ (base_top page prev < b3 b -> b3 b + 2 <= fig_top_y page cap_top_y prev true).
Proof.
  intros Hb Hsec Hlt.
  destruct (get_si_section_header_bottom_spec page cap_top_y) as (_ & Hub & _).
  assert (Hhb : b3 b <= get_si_section_header_bottom page cap_top_y).
  { apply Hub; [done|]. unfold section_block_above.
    apply Z.ltb_lt in Hlt. by rewrite Hlt, Hsec. }
  pose proof (fig_top_y_si_ge page cap_top_y prev) as Hge.
  unfold si_header_top in Hge.
  destruct (_ >? _) eqn:Hgt in Hge.
  - apply Z.gtb_lt in Hgt. lia.
  - rewrite Z.gtb_ltb in Hgt. apply Z.ltb_ge in Hgt. lia.
Qed.

Lemma si_last_text_y_spec page cap_top_y prev :
  let scan := si_scan_top page cap_top_y prev in
  let last := si_last_text_y page cap_top_y prev in
  scan <= last
  /\ (forall b, b ∈ get_text_blocks page ->
        body_text_above scan cap_top_y b = true -> b3 b <= last)
  /\ (last = scan \/ exists b, b ∈ get_text_blocks page
               /\ body_text_above scan cap_top_y b = true /\ last = b3 b).
Proof.
  unfold si_last_text_y.
  apply (fold_max_spec (body_text_above (si_scan_top page cap_top_y prev) cap_top_y) b3).
  done.
Qed.

(** X10. In supplementary mode let [last] be the greatest bottom of
    the body-text blocks (non-empty, neither caption nor section title)
    that start at or below [scan_top] and end more than 5 units above the
    caption top.  If [last] is below [scan_top] and the caption top is
    more than 30 below [last], the region starts at or below [last] + 3
    and so excludes every such block.  If the caption top is within 30 of
    [last], no block is excluded at all, however far above the caption
    the others end: the top stays where the section-title step left
    it. *)
Theorem X_si_body_text_gap page (cap_top_y : Z) (prev : option Z) :
  let scan := si_scan_top page cap_top_y prev in
  let last := si_last_text_y page cap_top_y prev in
  let top0 := si_header_top page cap_top_y prev in
  (forall b, b ∈ get_text_blocks page ->
     body_text_above scan cap_top_y b = true -> b3 b <= last)
  /\ (last = scan \/ exists b, b ∈ get_text_blocks page
               /\ body_text_above scan cap_top_y b = true /\ last = b3 b)
  /\ (scan < last -> 30 < cap_top_y - last ->
      fig_top_y page cap_top_y prev true = Z.max top0 (last + 3)
      /\ forall b, b ∈ get_text_blocks page ->
           body_text_above scan cap_top_y b = true ->
           b3 b + 3 <= fig_top_y page cap_top_y prev true)
  /\ (last <= scan \/ cap_top_y - last <= 30 ->
      fig_top_y page cap_top_y prev true = top0).
Proof.
  intros scan last top0.
  destruct (si_last_text_y_spec page cap_top_y prev) as (Hge & Hub & Hex).
  fold scan last in Hge, Hub, Hex.
  split; [exact Hub|]. split; [exact Hex|]. split.
  - intros HST Hgap.
    assert (Heq : fig_top_y page cap_top_y prev true = Z.max top0 (last + 3)).
    { rewrite fig_top_y_si. cbv zeta. fold scan last top0.
      assert (H1 : (last >? scan) = true) by (apply Z.gtb_lt; lia).
      assert (H2 : (cap_top_y - last >? 30) = true) by (apply Z.gtb_lt; lia).
      by rewrite H1, H2. }
    split; [exact Heq|]. intros b Hb Hbody. specialize (Hub b Hb Hbody). lia.
  - intros Hno. rewrite fig_top_y_si. cbv zeta. fold scan last top0.
    destruct (last >? scan) eqn:H1; [|done].
    destruct (cap_top_y - last >? 30) eqn:H2; [|done].
    apply Z.gtb_lt in H1, H2. lia.
Qed.

(** ** What an extraction returns *)

Lemma extract_figure_on_Some page (caption : Caption) prev mat si img cap_bottom :
  extract_figure_on gray_of page caption prev mat si = Some (img, cap_bottom) ->
  cap_bottom = y1 (cap_rect caption)
  /\ (20 <= shape0 img)%nat /\ (20 <= shape1 img)%nat
  /\ (trim_whitespace gray_of
        (get_pixmap page mat (clip page caption prev si)) = Some img
      \/ (si = true
          /\ above_image gray_of page mat (clip page caption prev si) = None
          /\ trim_whitespace gray_of
               (get_pixmap page mat (below_clip page caption si)) = Some img)).
Proof.
  unfold extract_figure_on.
  destruct (above_image gray_of page mat _) as [i|] eqn:Ha.
  - intros [= <- <-]. apply above_image_Some in Ha as (_ & _ & Hk).
    apply keep_if_large_Some in Hk as (Ht & H0 & H1). auto.
  - destruct si; [|done].
    destruct (below_image gray_of page mat _) as [i|] eqn:Hb; [|done].
    intros [= <- <-]. apply below_image_Some in Hb as (_ & _ & Hk).
    apply keep_if_large_Some in Hk as (Ht & H0 & H1). auto 10.
Qed.

(** X11. An image returned by [extract_figure] has at least 20 rows
    and 20 columns, is what the trimmer made of the rendering of the
    region above the caption or, in supplementary mode only and only when
    the region above gave no image, of the region below it, and comes
    with the bottom Y of the caption's own rectangle. *)
Theorem X_extracted_image page (caption : Caption) (prev : option Z) mat si
        (img : Image (Pixel := Pixel)) (cap_bottom : Z) :
  extract_figure_on gray_of page caption prev mat si = Some (img, cap_bottom) ->
  cap_bottom = y1 (cap_rect caption)
  /\ (20 <= shape0 img)%nat /\ (20 <= shape1 img)%nat
  /\ (trim_whitespace gray_of
        (get_pixmap page mat (clip page caption prev si)) = Some img
      \/ (si = true
          /\ above_image gray_of page mat (clip page caption prev si) = None
          /\ trim_whitespace gray_of
               (get_pixmap page mat (below_clip page caption si)) = Some img)).
Proof. apply extract_figure_on_Some. Qed.

Lemma extract_figure_Some doc (cap : Caption) prev mat si img cap_bottom :
  extract_figure gray_of doc cap prev mat si = Returned (Some (img, cap_bottom)) ->
  cap_bottom = y1 (cap_rect cap)
  /\ (20 <= shape0 img)%nat /\ (20 <= shape1 img)%nat.
Proof.
  unfold extract_figure. destruct (doc !! cap_page cap) as [page|]; [|done].
  intros [= He]. apply extract_figure_on_Some in He. tauto.
Qed.

(** ** Successive captions of a page *)

Lemma loop_body_main_prev_mono doc out_dir mat st (cap : Caption) st' :
  y0 (cap_rect cap) <= y1 (cap_rect cap) ->
  loop_body gray_of doc out_dir mat false st cap = Returned st' ->
  forall p v, prev_cap_bottom_by_page st !! p = Some v ->
    exists v', prev_cap_bottom_by_page st' !! p = Some v' /\ v <= v'.
Proof.
  intros Hrect Hstep p v Hv.
  destruct (decide (cap_label cap ∈ extracted_labels st)) as [Hin|Hnin].
  { rewrite loop_body_duplicate in Hstep by done. injection Hstep as <-.
    exists v. split; [exact Hv|lia]. }
  destruct (extract_figure gray_of doc cap
              (prev_cap_bottom_by_page st !! cap_page cap) mat false)
    as [[[img cap_bottom]|]|] eqn:He.
  - pose proof (extract_figure_Some _ _ _ _ _ _ _ He) as (-> & _).
    rewrite (loop_body_written _ _ _ _ _ _ _ _ Hnin He) in Hstep.
    injection Hstep as <-. cbn [prev_cap_bottom_by_page].
    destruct (decide (p = cap_page cap)) as [->|Hp].
    + rewrite lookup_insert_eq. eexists. split; [reflexivity|].
      unfold extract_figure in He.
      destruct (doc !! cap_page cap) as [page|]; [|done].
      injection He as He. unfold extract_figure_on in He. rewrite Hv in He.
      destruct (above_image gray_of page mat (clip page cap (Some v) false))
        as [i|] eqn:Ha; [|done].
      apply above_image_Some in Ha as (Hh & _ & _).
      unfold height, clip in Hh. cbn [y0 y1] in Hh. unfold clip_bottom in Hh.
      pose proof (fig_top_y_ge_base page (y0 (cap_rect cap)) (Some v) false) as Hb.
      cbn [base_top] in Hb. lia.
    + rewrite lookup_insert_ne by done. exists v. split; [exact Hv|lia].
  - rewrite loop_body_too_small in Hstep by done.
    injection Hstep as <-. exists v. split; [exact Hv|lia].
  - unfold loop_body in Hstep. rewrite decide_False, He in Hstep; done.
Qed.

Lemma loop_main_prev_mono doc out_dir mat (captions : list Caption) st st' :
  Forall (fun c : Caption => y0 (cap_rect c) <= y1 (cap_rect c)) captions ->
  loop gray_of doc out_dir mat false captions st = Returned st' ->
  forall p v, prev_cap_bottom_by_page st !! p = Some v ->
    exists v', prev_cap_bottom_by_page st' !! p = Some v' /\ v <= v'.
Proof.
  intros Hrects. revert st. induction Hrects as [|cap captions Hcap _ IH];
    intros st Hloop p v Hv; simpl in Hloop.
  - injection Hloop as <-. exists v. split; [exact Hv|lia].
  - destruct (loop_body gray_of doc out_dir mat false st cap) as [st1|] eqn:Hstep;
      [|done].
    destruct (loop_body_main_prev_mono _ _ _ _ _ _ Hcap Hstep p v Hv)
      as (v1 & Hv1 & Hle1).
    destruct (IH st1 Hloop p v1 Hv1) as (v' & Hv' & Hle').
    exists v'. split; [exact Hv'|lia].
Qed.

(** X12. Right after a caption has been extracted, the page's previous
    bottom is that caption's bottom and the entries of the other pages
    are as before, so a caption of the same page resolved against that
    state starts at least 3 units below it.  In main mode this lasts:
    whatever captions (with rectangles that are not inverted) are
    processed afterwards, the region of a caption of the same page
    resolved against the state reached starts at least 3 units below that
    bottom and, the first caption's rectangle not being inverted,
    strictly below the bottom of the region extracted for it.  (In
    supplementary mode it need not last: see
    [si_previous_bottom_can_drop].) *)
Theorem X_next_region_below doc out_dir mat si st (c1 : Caption) img cap_bottom :
  cap_label c1 ∉ extracted_labels st ->
  extract_figure gray_of doc c1 (prev_cap_bottom_by_page st !! cap_page c1) mat si
  = Returned (Some (img, cap_bottom)) ->
  exists st1,
    loop_body gray_of doc out_dir mat si st c1 = Returned st1
    /\ prev_cap_bottom_by_page st1 !! cap_page c1 = Some (y1 (cap_rect c1))
    /\ (forall p, p <> cap_page c1 ->
          prev_cap_bottom_by_page st1 !! p = prev_cap_bottom_by_page st !! p)
    /\ (forall page (c2 : Caption),
          cap_page c2 = cap_page c1 ->
          y1 (cap_rect c1) + 3
          <= y0 (clip page c2 (prev_cap_bottom_by_page st1 !! cap_page c2) si))
    /\ (si = false ->
        forall (captions : list Caption) st2,
          Forall (fun c : Caption => y0 (cap_rect c) <= y1 (cap_rect c)) captions ->
          loop gray_of doc out_dir mat false captions st1 = Returned st2 ->
          forall page (c2 : Caption),
            cap_page c2 = cap_page c1 ->
            y1 (cap_rect c1) + 3
            <= y0 (clip page c2 (prev_cap_bottom_by_page st2 !! cap_page c2) false)
            /\ (y0 (cap_rect c1) <= y1 (cap_rect c1) ->
                forall page1 prev1,
                  y1 (clip page1 c1 prev1 false)
                  < y0 (clip page c2
                             (prev_cap_bottom_by_page st2 !! cap_page c2) false))).
Proof.
  intros Hnin He. pose proof (extract_figure_Some _ _ _ _ _ _ _ He) as (-> & _).
  eexists. split; [by apply loop_body_written|].
  cbn [prev_cap_bottom_by_page].
  split; [apply lookup_insert_eq|].
  split; [intros p Hp; by apply lookup_insert_ne|].
  split.
  - intros page c2 Hpage. rewrite Hpage, lookup_insert_eq.
    unfold clip. cbn [y0].
    apply (fig_top_y_ge_base page (y0 (cap_rect c2)) (Some (y1 (cap_rect c1))) si).
  - intros -> captions st2 Hrects Hloop page c2 Hpage.
    destruct (loop_main_prev_mono _ _ _ _ _ _ Hrects Hloop (cap_page c1)
                (y1 (cap_rect c1))) as (v' & Hv' & Hle).
    { cbn [prev_cap_bottom_by_page]. apply lookup_insert_eq. }
    rewrite Hpage, Hv'.
    assert (Htop : v' + 3 <= y0 (clip page c2 (Some v') false)).
    { unfold clip. cbn [y0].
      apply (fig_top_y_ge_base page (y0 (cap_rect c2)) (Some v') false). }
    split; [lia|].
    intros Hrect page1 prev1. unfold clip at 1. cbn [y1]. unfold clip_bottom. lia.
Qed.

(** ** What the loop adds and what the run leaves behind *)

Lemma append_nonempty (a b : string) :
  b <> EmptyString -> String.append a b <> EmptyString.
Proof. intros Hb. destruct a; simpl; [exact Hb|discriminate]. Qed.

Lemma last_char_append (a b : string) :
  b <> EmptyString -> last_char (String.append a b) = last_char b.
Proof.
  intros Hb. induction a as [|c a IH]; [done|]. simpl.
  pose proof (append_nonempty a b Hb) as Hne.
  destruct (String.append a b) eqn:Happ; [done|]. exact IH.
Qed.

Lemma append_assoc3 (a b c : string) :
  String.append a (String.append b c) = String.append (String.append a b) c.
Proof.
  induction a as [|x a IH]; [done|].
  change (String x (String.append a (String.append b c))
          = String x (String.append (String.append a b) c)).
  by rewrite IH.
Qed.

Lemma path_join_suffix (a b : string) :
  exists x, path_join a b = String.append x b.
Proof.
  unfold path_join. destruct (String.prefix "/" b).
  - by exists EmptyString.
  - destruct (_ || _).
    + by exists a.
    + exists (String.append a "/"). apply append_assoc3.
Qed.

Lemma last_char_path_join (a b : string) :
  b <> EmptyString -> last_char (path_join a b) = last_char b.
Proof.
  intros Hb. destruct (path_join_suffix a b) as [x ->]. by apply last_char_append.
Qed.

(** An image path is never the manifest path. *)
Lemma png_path_not_manifest (out_dir label : string) :
  path_join out_dir (String.append label ".png")
  <> path_join out_dir "manifest.json".
Proof.
  intros Heq. apply (f_equal last_char) in Heq.
  rewrite !last_char_path_join in Heq.
  - rewrite last_char_append in Heq; done.
  - done.
  - destruct label; done.
Qed.


Lemma loop_body_cases doc out_dir mat si st cap st' :
  loop_body gray_of doc out_dir mat si st cap = Returned st' ->
  (exists msg, st' = say msg st)
  \/ (exists img,
        (cap_label cap ∉ extracted_labels st)
        /\ (20 <= shape0 img)%nat /\ (20 <= shape1 img)%nat
        /\ st' = {| manifest := manifest st ++ [entry_of out_dir cap];
                    prev_cap_bottom_by_page :=
                      <[cap_page cap := y1 (cap_rect cap)]> (prev_cap_bottom_by_page st);
                    extracted_labels := extracted_labels st ∪ {[ cap_label cap ]};
                    files := <[m_path (entry_of out_dir cap) := PngFile img]> (files st);
                    stdout := stdout st
                              ++ [MsgImage (cap_label cap) (shape1 img) (shape0 img)] |}).
Proof.
  intros Hstep.
  destruct (decide (cap_label cap ∈ extracted_labels st)) as [Hin|Hnin].
  { rewrite loop_body_duplicate in Hstep by done. injection Hstep as <-.
    left. by eexists. }
  destruct (extract_figure gray_of doc cap
              (prev_cap_bottom_by_page st !! cap_page cap) mat si)
    as [[[img cap_bottom]|]|] eqn:He.
  - pose proof (extract_figure_Some _ _ _ _ _ _ _ He) as (-> & H0 & H1).
    rewrite (loop_body_written _ _ _ _ _ _ _ _ Hnin He) in Hstep.
    injection Hstep as <-. right. by exists img.
  - rewrite loop_body_too_small in Hstep by done. injection Hstep as <-.
    left. by eexists.
  - unfold loop_body in Hstep. rewrite decide_False, He in Hstep; done.
Qed.

Lemma loop_body_run_inv doc out_dir mat si files0 st cap st' :
  run_inv out_dir files0 st ->
  loop_body gray_of doc out_dir mat si st cap = Returned st' ->
  run_inv out_dir files0 st'.
Proof.
  intros [Hent Hframe] Hstep.
  destruct (loop_body_cases _ _ _ _ _ _ _ Hstep)
    as [[msg ->]|(img & _ & H0 & H1 & ->)]; [done|].
  split; cbn [manifest files].
  - intros e He.
    destruct (decide (m_path e = m_path (entry_of out_dir cap))) as [Heq|Hne].
    + rewrite Heq, lookup_insert_eq. split; [|by exists img].
      apply elem_of_app in He as [He|He].
      * rewrite <- Heq. by apply Hent.
      * apply list_elem_of_singleton in He. by subst e.
    + rewrite lookup_insert_ne by done.
      apply elem_of_app in He as [He|He]; [by apply Hent|].
      apply list_elem_of_singleton in He. by subst e.
  - intros path Hpath. rewrite lookup_insert_ne.
    + apply Hframe. intros e He. apply Hpath, elem_of_app. by left.
    + apply Hpath, elem_of_app. right. by apply list_elem_of_singleton.
Qed.

Lemma loop_run_inv doc out_dir mat si files0 captions st st' :
  run_inv out_dir files0 st ->
  loop gray_of doc out_dir mat si captions st = Returned st' ->
  run_inv out_dir files0 st'.
Proof.
  revert st. induction captions as [|cap rest IH]; intros st Hinv Hloop; simpl in Hloop.
  - by injection Hloop as <-.
  - destruct (loop_body _ _ _ _ _ _ _) as [st1|] eqn:Hstep; [|done].
    eapply IH; [|exact Hloop]. by eapply loop_body_run_inv.
Qed.

Lemma loop_sublist doc out_dir mat si captions st st' :
  loop gray_of doc out_dir mat si captions st = Returned st' ->
  exists added,
    manifest st' = manifest st ++ added
    /\ added `sublist_of` map (entry_of out_dir) captions.
Proof.
  revert st. induction captions as [|cap rest IH]; intros st Hloop; simpl in Hloop.
  - injection Hloop as <-. exists []. split; [by rewrite app_nil_r|constructor].
  - destruct (loop_body _ _ _ _ _ _ _) as [st1|] eqn:Hstep; [|done].
    destruct (IH st1 Hloop) as (added & Hm & Hsub).
    destruct (loop_body_cases _ _ _ _ _ _ _ Hstep)
      as [[msg ->]|(img & _ & _ & _ & ->)].
    + exists added. split; [done|]. simpl. by apply sublist_cons.
    + cbn [manifest] in Hm. exists (entry_of out_dir cap :: added).
      split; [by rewrite Hm, <- app_assoc|]. simpl. by apply sublist_skip.
Qed.

Lemma loop_grows doc out_dir mat si captions st st' :
  loop gray_of doc out_dir mat si captions st = Returned st' ->
  manifest st `prefix_of` manifest st'
  /\ extracted_labels st ⊆ extracted_labels st'
  /\ (forall path, is_Some (files st !! path) -> is_Some (files st' !! path))
  /\ stdout st `prefix_of` stdout st'.
Proof.
  revert st. induction captions as [|cap rest IH]; intros st Hloop; simpl in Hloop.
  - injection Hloop as <-. done.
  - destruct (loop_body _ _ _ _ _ _ _) as [st1|] eqn:Hstep; [|done].
    destruct (IH st1 Hloop) as (Hm & He & Hf & Ho).
    destruct (loop_body_cases _ _ _ _ _ _ _ Hstep)
      as [[msg ->]|(img & _ & _ & _ & ->)]; cbn [manifest extracted_labels files stdout say] in *.
    + split; [done|]. split; [done|]. split; [done|].
      etrans; [|exact Ho]. by apply prefix_app_r.
    + split; [etrans; [|exact Hm]; by apply prefix_app_r|].
      split; [intros l Hl; apply He, elem_of_union; by left|]. split.
      * intros path Hpath. apply Hf.
        destruct (decide (m_path (entry_of out_dir cap) = path)) as [->|Hne].
        -- rewrite lookup_insert_eq. by eexists.
        -- by rewrite lookup_insert_ne.
      * etrans; [|exact Ho]. by apply prefix_app_r.
Qed.

Lemma loop_body_locked_iff doc out_dir mat si st cap st' :
  (forall l, l ∈ extracted_labels st <-> l ∈ map m_label (manifest st)) ->
  loop_body gray_of doc out_dir mat si st cap = Returned st' ->
  forall l, l ∈ extracted_labels st' <-> l ∈ map m_label (manifest st').
Proof.
  intros Hiff Hstep.
  destruct (loop_body_cases _ _ _ _ _ _ _ Hstep)
    as [[msg ->]|(img & _ & _ & _ & ->)]; [done|].
  intros l. cbn [manifest extracted_labels]. rewrite map_app. cbn [map entry_of m_label].
  rewrite elem_of_union, elem_of_app, elem_of_singleton, list_elem_of_singleton.
  by rewrite Hiff.
Qed.

Lemma loop_locked_iff doc out_dir mat si captions st st' :
  (forall l, l ∈ extracted_labels st <-> l ∈ map m_label (manifest st)) ->
  loop gray_of doc out_dir mat si captions st = Returned st' ->
  forall l, l ∈ extracted_labels st' <-> l ∈ map m_label (manifest st').
Proof.
  revert st. induction captions as [|cap rest IH]; intros st Hiff Hloop; simpl in Hloop.
  - by injection Hloop as <-.
  - destruct (loop_body _ _ _ _ _ _ _) as [st1|] eqn:Hstep; [|done].
    eapply IH; [|exact Hloop]. by eapply loop_body_locked_iff.
Qed.

(** What a run returns and leaves in the output directory. *)
Lemma run_spec doc out_dir si files0 :
  exists m fs out,
    run gray_of doc out_dir si files0 = Returned (m, fs, out)
    /\ m `sublist_of` map (entry_of out_dir) (find_all_captions doc si)
    /\ (forall e, e ∈ m ->
          m_path e = path_join out_dir (String.append (m_label e) ".png")
          /\ exists img, fs !! m_path e = Some (PngFile img)
                         /\ (20 <= shape0 img)%nat /\ (20 <= shape1 img)%nat)
    /\ (forall path, path <> path_join out_dir "manifest.json" ->
          (forall e, e ∈ m -> m_path e <> path) ->
          fs !! path = files0 !! path).
Proof.
  unfold run.
  destruct (find_all_captions doc si) as [|cap rest] eqn:Hcaps.
  { do 3 eexists. split; [done|]. split; [constructor|].
    split; [intros e He; by apply elem_of_nil in He|done]. }
  set (st0 := mkState [] ∅ ∅ files0 [MsgMode si]).
  destruct (loop_returns doc out_dir (ZOOM, ZOOM) si (cap :: rest) st0) as [st Hst].
  { intros c Hc. apply (find_all_captions_page doc si). by rewrite Hcaps. }
  rewrite Hst. do 3 eexists. split; [done|].
  destruct (loop_sublist _ _ _ _ _ _ _ Hst) as (added & Hm & Hsub).
  simpl in Hm. subst added.
  assert (Hinv : run_inv out_dir files0 st).
  { eapply loop_run_inv; [|exact Hst]. split; [|done].
    intros e He. by apply elem_of_nil in He. }
  destruct Hinv as [Hent Hframe].
  split; [done|]. split.
  - intros e He. destruct (Hent e He) as (Hpath & img & Hfile & Hdim).
    split; [done|]. exists img. split; [|done].
    rewrite lookup_insert_ne; [done|].
    rewrite Hpath. intros Heq. symmetry in Heq. by apply png_path_not_manifest in Heq.
  - intros path Hpath Hother. rewrite lookup_insert_ne by done. by apply Hframe.
Qed.

(** X13. Every run returns, and its manifest is a subsequence of
    the detected captions: each entry is the entry of a detected caption
    (label, type, path under the output directory, caption text), and
    the entries come in the order of detection. *)
Theorem X_manifest_subsequence doc out_dir si files0 :
  exists m fs out,
    run gray_of doc out_dir si files0 = Returned (m, fs, out)
    /\ m `sublist_of` map (entry_of out_dir) (find_all_captions doc si)
    /\ (length m <= length (find_all_captions doc si))%nat.
Proof.
  destruct (run_spec doc out_dir si files0) as (m & fs & out & Hrun & Hsub & _).
  exists m, fs, out. split; [done|]. split; [done|].
  apply sublist_length in Hsub. by rewrite length_map in Hsub.
Qed.

(** X14. After a run, every manifest entry has its image file in the
    output directory, at [out_dir/label.png], and the image in it has at
    least 20 rows and 20 columns. *)
Theorem X_manifest_entries_have_files doc out_dir si files0 :
  exists m fs out,
    run gray_of doc out_dir si files0 = Returned (m, fs, out)
    /\ forall e, e ∈ m ->
         m_path e = path_join out_dir (String.append (m_label e) ".png")
         /\ exists img, fs !! m_path e = Some (PngFile img)
                        /\ (20 <= shape0 img)%nat /\ (20 <= shape1 img)%nat.
Proof.
  destruct (run_spec doc out_dir si files0) as (m & fs & out & Hrun & _ & Hent & _).
  by exists m, fs, out.
Qed.


(** X16. The loop only adds: over any stretch of captions the
    manifest before is a prefix of the manifest after, the locked-in
    labels before are among those after, every file present before is
    present after, and the printed lines before are a prefix of those
    after.  An entry once appended is never changed or removed. *)
Theorem X_loop_only_adds doc out_dir mat si captions st st' :
  loop gray_of doc out_dir mat si captions st = Returned st' ->
  manifest st `prefix_of` manifest st'
  /\ extracted_labels st ⊆ extracted_labels st'
  /\ (forall path, is_Some (files st !! path) -> is_Some (files st' !! path))
  /\ stdout st `prefix_of` stdout st'.
Proof. apply loop_grows. Qed.

(** X17. Started with the locked-in labels being exactly the
    labels of the manifest (as [run] starts it, with both empty), the
    loop keeps them so: a caption is skipped as a duplicate exactly when
    the manifest already holds an entry with its label. *)
Theorem X_locked_labels_are_manifest_labels doc out_dir mat si captions st st' cap :
  (forall l, l ∈ extracted_labels st <-> l ∈ map m_label (manifest st)) ->
  loop gray_of doc out_dir mat si captions st = Returned st' ->
  (forall l, l ∈ extracted_labels st' <-> l ∈ map m_label (manifest st'))
  /\ (cap_label cap ∈ map m_label (manifest st') ->
      loop_body gray_of doc out_dir mat si st' cap
      = Returned (say (MsgSkipDuplicate (cap_label cap) (cap_page cap + 1)) st')).
Proof.
  intros Hiff Hloop.
  pose proof (loop_locked_iff _ _ _ _ _ _ _ Hiff Hloop) as Hiff'.
  split; [exact Hiff'|]. intros Hin. apply loop_body_duplicate. by apply Hiff'.
Qed.

(** ** Caption detection *)

Lemma find_all_captions_pages doc si :
  find_all_captions doc si = concat (imap (page_captions si) doc).
Proof. reflexivity. Qed.

Lemma caption_of_block_Some si page_num b c :
  caption_of_block si page_num b = Some c ->
  cap_page c = page_num
  /\ cap_rect c = mkRect (b0 b) (b1 b) (b2 b) (b3 b)
  /\ cap_caption_text c = Text.strip (b4 b)
  /\ matches (caption_re_of si) (cap_caption_text c) = true
  /\ (cap_type c = "figure" \/ cap_type c = "table").
Proof.
  unfold caption_of_block, matches.
  destruct (match_ (caption_re_of si) (Text.strip (b4 b))) as [m|] eqn:Hm; [|done].
  intros [= <-]. cbn [cap_page cap_rect cap_caption_text cap_type].
  rewrite Hm. repeat split. destruct (Text.contains _ _); auto.
Qed.

Lemma page_captions_elem si page_num page c :
  c ∈ page_captions si page_num page <->
  (si = true -> page_num <> 0%nat)
  /\ exists b, b ∈ get_text_blocks page /\ caption_of_block si page_num b = Some c.
Proof.
  unfold page_captions. destruct si; simpl.
  - destruct page_num as [|n]; simpl.
    + split; [intros Hc; by apply elem_of_nil in Hc|]. intros [Hne _]. by destruct Hne.
    + rewrite list_elem_of_omap. split; [intros; split; [done|done]|by intros [_ ?]].
  - rewrite list_elem_of_omap. split; [intros; split; [done|done]|by intros [_ ?]].
Qed.

Lemma find_all_captions_elem doc si c :
  c ∈ find_all_captions doc si <->
  exists page b,
    doc !! cap_page c = Some page
    /\ b ∈ get_text_blocks page
    /\ caption_of_block si (cap_page c) b = Some c
    /\ (si = true -> cap_page c <> 0%nat).
Proof.
  rewrite find_all_captions_pages. split.
  - intros Hin.
    apply list_elem_of_In, in_concat in Hin as (l & Hl & Hc).
    apply list_elem_of_In, elem_of_lookup_imap in Hl as (i & page & -> & Hpage).
    apply list_elem_of_In, page_captions_elem in Hc as (Hsi & b & Hb & Hcap).
    destruct (caption_of_block_Some _ _ _ _ Hcap) as (Hp & _). subst i.
    by exists page, b.
  - intros (page & b & Hpage & Hb & Hcap & Hsi).
    apply list_elem_of_In, in_concat. exists (page_captions si (cap_page c) page).
    split.
    + apply list_elem_of_In. by apply (elem_of_lookup_imap_2 (page_captions si) doc).
    + apply list_elem_of_In, page_captions_elem. split; [done|]. by exists b.
Qed.

(** X18. A caption is detected exactly when it is what
    [caption_of_block] makes of some text block of some page of the
    document, that page not being page 0 in supplementary mode.  A
    detected caption lies on a page of the document, carries the block's
    rectangle and its stripped text, which matches the caption grammar of
    the mode, and has type "figure" or "table". *)
Theorem X_detected_captions doc si (c : Caption) :
  (c ∈ find_all_captions doc si <->
   exists page b,
     doc !! cap_page c = Some page
     /\ b ∈ get_text_blocks page
     /\ caption_of_block si (cap_page c) b = Some c
     /\ (si = true -> cap_page c <> 0%nat))
  /\ (c ∈ find_all_captions doc si ->
      (cap_page c < length doc)%nat
      /\ (si = true -> cap_page c <> 0%nat)
      /\ matches (caption_re_of si) (cap_caption_text c) = true
      /\ (cap_type c = "figure" \/ cap_type c = "table")
      /\ exists page b,
           doc !! cap_page c = Some page /\ b ∈ get_text_blocks page
           /\ cap_rect c = mkRect (b0 b) (b1 b) (b2 b) (b3 b)
           /\ cap_caption_text c = Text.strip (b4 b)).
Proof.
  split; [apply find_all_captions_elem|]. intros Hin.
  apply find_all_captions_elem in Hin as (page & b & Hpage & Hb & Hcap & Hsi).
  destruct (caption_of_block_Some _ _ _ _ Hcap) as (_ & Hrect & Htext & Hm & Hty).
  split; [by eapply lookup_lt_Some|]. split; [done|]. split; [done|]. split; [done|].
  by exists page, b.
Qed.

Lemma same_page_sorted (n : nat) (l : list Caption) :
  Forall (fun c => cap_page c = n) l ->
  StronglySorted (fun c1 c2 => (cap_page c1 <= cap_page c2)%nat) l.
Proof.
  induction 1 as [|c l Hc Hl IH]; constructor; [done|].
  eapply Forall_impl; [exact Hl|]. intros c' Hc'. simpl in *. lia.
Qed.

Lemma captions_from_sorted si (k : nat) (l : list (Page (Pixel := Pixel))) :
  let caps := concat (imap (fun i page => page_captions si (k + i) page) l) in
  Forall (fun c => (k <= cap_page c)%nat) caps
  /\ StronglySorted (fun c1 c2 => (cap_page c1 <= cap_page c2)%nat) caps.
Proof.
  revert k. induction l as [|page l IH]; intros k; simpl.
  - split; constructor.
  - assert (Hhere : Forall (fun c => cap_page c = k)
                           (page_captions si (k + 0) page)).
    { apply Forall_forall. intros c Hc.
      apply page_captions_elem in Hc as (_ & b & _ & Hcap).
      apply caption_of_block_Some in Hcap as [Hp _]. lia. }
    destruct (IH (S k)) as [Hge Hsorted].
    rewrite (imap_ext _ (fun i page => page_captions si (S k + i) page)); last first.
    { intros i x _. simpl. f_equal. lia. }
    split.
    + apply Forall_app. split.
      * eapply Forall_impl; [exact Hhere|]. intros c Hc. simpl in *. lia.
      * eapply Forall_impl; [exact Hge|]. intros c Hc. simpl in *. lia.
    + apply StronglySorted_app. split; [|split; [by eapply same_page_sorted|done]].
      intros c1 c2 Hc1 Hc2.
      eapply Forall_forall in Hhere; [|exact Hc1].
      eapply Forall_forall in Hge; [|exact Hc2]. simpl in *. lia.
Qed.

(** X19. The detected captions come in page order: a caption is never
    followed, however far down the list, by one of an earlier page. *)
Theorem X_captions_in_page_order doc si :
  StronglySorted (fun c1 c2 => (cap_page c1 <= cap_page c2)%nat)
                 (find_all_captions doc si).
Proof.
  rewrite find_all_captions_pages.
  pose proof (captions_from_sorted si 0 doc) as [_ Hs]. exact Hs.
Qed.

(** ** The matcher against the declarative reading of the patterns *)

Lemma append_nil_r (s : string) : String.append s EmptyString = s.
Proof.
  induction s as [|c s IH]; [done|].
  change (String c (String.append s EmptyString) = String c s). by rewrite IH.
Qed.

Lemma append_cons (c : ascii) (a b : string) :
  String.append (String c a) b = String c (String.append a b).
Proof. reflexivity. Qed.

Lemma length_append (a b : string) :
  String.length (String.append a b) = (String.length a + String.length b)%nat.
Proof.
  induction a as [|c a IH]; [done|].
  rewrite append_cons. simpl. by rewrite IH.
Qed.

Lemma take_append (a b : string) :
  Text.take (String.length (String.append a b) - String.length b) (String.append a b) = a.
Proof.
  rewrite length_append.
  replace (String.length a + String.length b - String.length b)%nat
    with (String.length a) by lia.
  induction a as [|c a IH]; [by destruct b|].
  rewrite append_cons. simpl. by rewrite IH.
Qed.

Lemma lit_k_sound {A} (l s : string) (k : string -> option A) res :
  lit_k l s k = Some res ->
  exists x s', s = String.append x s' /\ Text.lower x = l /\ k s' = Some res.
Proof.
  revert s. induction l as [|lc lr IH]; intros s; simpl.
  - intros Hk. by exists EmptyString, s.
  - destruct s as [|c r]; [done|].
    destruct (Ascii.eqb (Text.lower_char c) lc) eqn:Hc; [|done].
    apply Ascii.eqb_eq in Hc. intros Hk.
    destruct (IH r Hk) as (x & s' & -> & <- & Hres).
    exists (String c x), s'. by rewrite <- Hc.
Qed.

Lemma lit_k_complete {A} (x s' : string) (k : string -> option A) :
  is_Some (k s') -> is_Some (lit_k (Text.lower x) (String.append x s') k).
Proof.
  intros Hk. induction x as [|c x IH]; [done|].
  rewrite append_cons. simpl. by rewrite Ascii.eqb_refl.
Qed.

Lemma star_k_sound {A} (p : ascii -> bool) (s : string) (k : string -> option A) res :
  star_k p s k = Some res ->
  exists x s', s = String.append x s' /\ all_chars p x = true /\ k s' = Some res.
Proof.
  induction s as [|c r IH]; simpl.
  - intros Hk. by exists EmptyString, EmptyString.
  - destruct (p c) eqn:Hp; [|intros Hk; by exists EmptyString, (String c r)].
    destruct (star_k p r k) as [res'|] eqn:Hstar.
    + intros [= <-]. destruct (IH eq_refl) as (x & s' & -> & Hall & Hres).
      exists (String c x), s'. simpl. by rewrite Hp, Hall.
    + intros Hk. by exists EmptyString, (String c r).
Qed.

Lemma star_k_complete {A} (p : ascii -> bool) (x s' : string) (k : string -> option A) :
  all_chars p x = true -> is_Some (k s') -> is_Some (star_k p (String.append x s') k).
Proof.
  intros Hall Hk. induction x as [|c x IH].
  - change (String.append EmptyString s') with s'.
    destruct s' as [|c r]; simpl; [done|].
    destruct (p c); [|done]. by destruct (star_k p r k).
  - simpl in Hall. apply andb_true_iff in Hall as [Hp Hall].
    rewrite append_cons. simpl. rewrite Hp.
    destruct (IH Hall) as [res ->]. by eexists.
Qed.

Lemma plus_k_sound {A} (p : ascii -> bool) (s : string) (k : string -> option A) res :
  plus_k p s k = Some res ->
  exists x s', s = String.append x s' /\ x <> EmptyString
               /\ all_chars p x = true /\ k s' = Some res.
Proof.
  unfold plus_k. destruct s as [|c r]; [done|].
  destruct (p c) eqn:Hp; [|done]. intros Hk.
  destruct (star_k_sound p r k res Hk) as (x & s' & -> & Hall & Hres).
  exists (String c x), s'. split; [done|]. split; [done|]. simpl. by rewrite Hp, Hall.
Qed.

Lemma plus_k_complete {A} (p : ascii -> bool) (x s' : string) (k : string -> option A) :
  x <> EmptyString -> all_chars p x = true -> is_Some (k s') ->
  is_Some (plus_k p (String.append x s') k).
Proof.
  intros Hne Hall Hk. destruct x as [|c x]; [done|].
  simpl in Hall. apply andb_true_iff in Hall as [Hp Hall].
  rewrite append_cons. unfold plus_k. rewrite Hp. by apply star_k_complete.
Qed.

(** Soundness: what the matcher finds is a match of the pattern. *)
Lemma go_sound (r : re) (s : string) (cs : caps)
      (k : string -> caps -> option caps) (res : caps) :
  go r s cs k = Some res ->
  exists x s' cs', s = String.append x s' /\ matched r cs x cs' /\ k s' cs' = Some res.
Proof.
  revert s cs k res. induction r as [l|p|a IHa b IHb|a IHa b IHb|a IHa|p|n a IHa];
    intros s cs k res; simpl.
  - intros Hk. apply lit_k_sound in Hk as (x & s' & -> & Hl & Hres).
    exists x, s', cs. split; [done|]. split; [by constructor|done].
  - destruct s as [|c s']; [done|]. destruct (p c) eqn:Hp; [|done]. intros Hk.
    exists (String c EmptyString), s', cs. split; [done|]. split; [by constructor|done].
  - intros Hk. apply IHa in Hk as (x & s1 & cs1 & -> & Ha & Hk).
    apply IHb in Hk as (y & s2 & cs2 & -> & Hb & Hk).
    exists (String.append x y), s2, cs2.
    split; [apply append_assoc3|]. split; [by econstructor|done].
  - destruct (go a s cs k) as [res'|] eqn:Ha.
    + intros [= <-]. apply IHa in Ha as (x & s' & cs' & -> & Hm & Hk).
      exists x, s', cs'. split; [done|]. split; [by apply m_alt_l|done].
    + intros Hb. apply IHb in Hb as (x & s' & cs' & -> & Hm & Hk).
      exists x, s', cs'. split; [done|]. split; [by apply m_alt_r|done].
  - destruct (go a s cs k) as [res'|] eqn:Ha.
    + intros [= <-]. apply IHa in Ha as (x & s' & cs' & -> & Hm & Hk).
      exists x, s', cs'. split; [done|]. split; [by apply m_opt_some|done].
    + intros Hk. exists EmptyString, s, cs. split; [done|]. split; [apply m_opt_none|done].
  - intros Hk. apply plus_k_sound in Hk as (x & s' & -> & Hne & Hall & Hres).
    exists x, s', cs. split; [done|]. split; [by constructor|done].
  - intros Hk. apply IHa in Hk as (x & s' & cs' & -> & Hm & Hk).
    rewrite take_append in Hk.
    exists x, s', ((n, x) :: cs'). split; [done|]. split; [by constructor|done].
Qed.

(** Completeness: where the pattern has a match the matcher finds one. *)
Lemma go_complete (r : re) (cs : caps) (x : string) (cs' : caps) :
  matched r cs x cs' ->
  forall s' k, is_Some (k s' cs') -> is_Some (go r (String.append x s') cs k).
Proof.
  induction 1 as [l x cs Hl|p c cs Hp|a b cs x cs1 y cs2 _ IHa _ IHb
                  |a b cs x cs' _ IHa|a b cs x cs' _ IHb
                  |a cs x cs' _ IHa|a cs|p x cs Hne Hall|n a cs x cs' _ IHa];
    intros s' k Hk.
  - subst l. by apply lit_k_complete.
  - change (String.append (String c EmptyString) s') with (String c s').
    simpl. by rewrite Hp.
  - rewrite <- append_assoc3. simpl. apply IHa. by apply IHb.
  - simpl. destruct (IHa s' k Hk) as [res ->]. by eexists.
  - simpl. destruct (go a (String.append x s') cs k); [by eexists|]. by apply IHb.
  - simpl. destruct (IHa s' k Hk) as [res ->]. by eexists.
  - change (String.append EmptyString s') with s'. simpl.
    by destruct (go a s' cs k).
  - by apply plus_k_complete.
  - simpl. apply IHa. by rewrite take_append.
Qed.

Lemma match_sound (r : re) (text : string) (m : caps) :
  match_ r text = Some m ->
  exists x s', text = String.append x s' /\ matched r [] x m.
Proof.
  unfold match_. intros Hgo.
  apply go_sound in Hgo as (x & s' & cs' & -> & Hm & [= <-]). by exists x, s'.
Qed.

Lemma matches_iff (r : re) (text : string) :
  matches r text = true <->
  exists x s' m, text = String.append x s' /\ matched r [] x m.
Proof.
  unfold matches. split.
  - destruct (match_ r text) as [m|] eqn:Hm; [|done]. intros _.
    apply match_sound in Hm as (x & s' & -> & Hm). by exists x, s', m.
  - intros (x & s' & m & -> & Hm). unfold match_.
    destruct (go_complete r [] x m Hm s' (fun _ cs => Some cs)) as [res ->]; [|done].
    by eexists.
Qed.

(** ** The shape of caption texts and labels *)

Lemma lower_nil_inv (x : string) : Text.lower x = EmptyString -> x = EmptyString.
Proof. by destruct x. Qed.

Lemma lower_append (a b : string) :
  Text.lower (String.append a b) = String.append (Text.lower a) (Text.lower b).
Proof.
  induction a as [|c a IH]; [done|].
  rewrite append_cons. simpl. rewrite IH. by rewrite <- append_cons.
Qed.

Ltac inv_matched :=
  repeat match goal with
         | H : matched (Seq _ _) _ _ _ |- _ => inversion H; subst; clear H
         | H : matched (Grp _ _) _ _ _ |- _ => inversion H; subst; clear H
         | H : matched (Alt _ _) _ _ _ |- _ => inversion H; subst; clear H
         | H : matched (Opt _) _ _ _ |- _ => inversion H; subst; clear H
         | H : matched (Lit _) _ _ _ |- _ => inversion H; subst; clear H
         | H : matched (Cls _) _ _ _ |- _ => inversion H; subst; clear H
         | H : matched (Plus _) _ _ _ |- _ => inversion H; subst; clear H
         end.


Lemma lower_char_s (c : ascii) :
  Text.lower_char c = "s"%char -> c = "s"%char \/ c = "S"%char.
Proof.
  destruct c as [[] [] [] [] [] [] [] []]; vm_compute; intros H;
    try discriminate H; auto.
Qed.


Lemma lower_s_inv (sp : string) :
  Text.lower sp = "s" -> sp = "s" \/ sp = "S".
Proof.
  destruct sp as [|c [|c' r]]; try done. simpl. intros [= Hc].
  apply lower_char_s in Hc as [-> | ->]; auto.
Qed.

Ltac inv_seq :=
  repeat match goal with
         | H : matched (Seq _ _) _ _ _ |- _ => inversion H; subst; clear H
         | H : matched (Grp _ _) _ _ _ |- _ => inversion H; subst; clear H
         | H : matched (Lit _) _ _ _ |- _ => inversion H; subst; clear H
         | H : matched (Cls _) _ _ _ |- _ => inversion H; subst; clear H
         | H : matched (Plus _) _ _ _ |- _ => inversion H; subst; clear H
         end.

Lemma si_kind_matched cs x cs' :
  matched (Alt (Seq (Lit "fig") (Opt (Lit "ure"))) (Lit "table")) cs x cs' ->
  cs' = cs
  /\ (Text.lower x = "fig" \/ Text.lower x = "figure" \/ Text.lower x = "table").
Proof.
  intros H. inv_matched; (split; [done|]).
  - right; left. rewrite lower_append.
    repeat match goal with H : Text.lower _ = _ |- _ => rewrite H; clear H end. done.
  - left. by rewrite append_nil_r.
  - auto.
Qed.

Lemma si_dot_matched cs x cs' :
  matched (Opt (Cls (chr "."))) cs x cs' ->
  cs' = cs /\ (x = EmptyString \/ x = ".").
Proof.
  intros H. inv_matched; (split; [done|]); [|auto]. right.
  match goal with H : _ = true |- String ?c _ = _ =>
    change (chr "." c = true) in H; apply Ascii.eqb_eq in H; by subst c end.
Qed.

Lemma si_s_matched cs x cs' :
  matched (Opt (Lit "s")) cs x cs' ->
  cs' = cs /\ (x = EmptyString \/ x = "s" \/ x = "S").
Proof.
  intros H. inv_matched; (split; [done|]); [|auto]. right. by apply lower_s_inv.
Qed.

Lemma si_tail_matched cs x cs' :
  matched (Alt (Cls (chr "."))
               (Seq (Plus Text.is_space)
                    (Cls (fun c => negb (chr "(" c || Text.is_space c))))) cs x cs' ->
  cs' = cs
  /\ (x = "."
      \/ exists ws c, x = String.append ws (String c EmptyString)
           /\ ws <> EmptyString /\ all_chars Text.is_space ws = true
           /\ c <> "("%char /\ Text.is_space c = false).
Proof.
  intros H. inv_matched; (split; [done|]).
  - left.
    match goal with H : _ = true |- String ?c _ = _ =>
      change (chr "." c = true) in H; apply Ascii.eqb_eq in H; by subst c end.
  - right.
    match goal with
    | Hc : _ = true |- context [String.append ?ws (String ?c EmptyString)] =>
        exists ws, c;
        change (negb (chr "(" c || Text.is_space c) = true) in Hc;
        apply negb_true_iff, orb_false_iff in Hc as [Hp Hs];
        split; [done|]; split; [done|]; split; [done|]; split; [|done];
        intros ->; vm_compute in Hp; discriminate Hp
    end.
Qed.

Lemma si_matched (x : string) (m : caps) :
  matched CAPTION_RE_SI [] x m ->
  exists kind dot ws sp ds tail,
    x = String.append kind (String.append dot (String.append ws
          (String.append (String.append sp ds) tail)))
    /\ (Text.lower kind = "fig" \/ Text.lower kind = "figure"
        \/ Text.lower kind = "table")
    /\ (dot = EmptyString \/ dot = ".")
    /\ ws <> EmptyString /\ all_chars Text.is_space ws = true
    /\ (sp = EmptyString \/ sp = "s" \/ sp = "S")
    /\ ds <> EmptyString /\ all_chars Text.is_digit ds = true
    /\ (tail = "."
        \/ exists ws2 c, tail = String.append ws2 (String c EmptyString)
             /\ ws2 <> EmptyString /\ all_chars Text.is_space ws2 = true
             /\ c <> "("%char /\ Text.is_space c = false)
    /\ m = [(2%nat, String.append sp ds); (1%nat, kind)].
Proof.
  unfold CAPTION_RE_SI, seqs. cbn [fold_right]. intros H. inv_seq.
  repeat match goal with
         | H : matched (Alt (Seq (Lit _) _) _) _ _ _ |- _ =>
             apply si_kind_matched in H as [-> ?]
         | H : matched (Opt (Cls _)) _ _ _ |- _ =>
             apply si_dot_matched in H as [-> ?]
         | H : matched (Opt (Lit _)) _ _ _ |- _ =>
             apply si_s_matched in H as [-> ?]
         | H : matched (Alt (Cls _) _) _ _ _ |- _ =>
             apply si_tail_matched in H as [-> ?]
         | H : Text.lower ?y = EmptyString |- _ =>
             apply lower_nil_inv in H; subst y
         end.
  eexists _, _, _, _, _, _. split; [rewrite append_nil_r; reflexivity|].
  repeat split; eauto.
Qed.









(** ** Inline references in supplementary mode *)

Lemma space_facts (c : ascii) :
  Text.is_space c = true ->
  Text.lower_char c = c /\ Text.is_digit c = false
  /\ c <> "."%char /\ c <> "("%char /\ c <> "s"%char /\ c <> "S"%char.
Proof.
  destruct c as [[] [] [] [] [] [] [] []]; vm_compute; intros H;
    try discriminate H; repeat split; congruence.
Qed.

Lemma digit_facts (c : ascii) :
  Text.is_digit c = true ->
  Text.is_space c = false /\ c <> "."%char /\ c <> "s"%char /\ c <> "S"%char.
Proof.
  destruct c as [[] [] [] [] [] [] [] []]; vm_compute; intros H;
    try discriminate H; repeat split; congruence.
Qed.

(** A run of characters of a class followed by a character outside it
    can be read in one way only. *)
Lemma span_unique (p : ascii -> bool) (a b : string) (c d : ascii) (r r' : string) :
  all_chars p a = true -> all_chars p b = true ->
  p c = false -> p d = false ->
  String.append a (String c r) = String.append b (String d r') ->
  a = b /\ c = d /\ r = r'.
Proof.
  revert b. induction a as [|x a IH]; intros b Ha Hb Hc Hd Heq.
  - destruct b as [|y b].
    + by injection Heq as -> ->.
    + rewrite append_cons in Heq. injection Heq as -> _.
      simpl in Hb. apply andb_true_iff in Hb as [Hb _]. congruence.
  - destruct b as [|y b].
    + rewrite append_cons in Heq. injection Heq as -> _.
      simpl in Ha. apply andb_true_iff in Ha as [Ha _]. congruence.
    + rewrite !append_cons in Heq. injection Heq as -> Heq.
      simpl in Ha, Hb. apply andb_true_iff in Ha as [_ Ha].
      apply andb_true_iff in Hb as [_ Hb].
      destruct (IH b Ha Hb Hc Hd Heq) as (-> & -> & ->). done.
Qed.

Lemma si_kind_align (K kind A B : string) :
  Text.lower K = "fig" \/ Text.lower K = "figure" \/ Text.lower K = "table" ->
  Text.lower kind = "fig" \/ Text.lower kind = "figure" \/ Text.lower kind = "table" ->
  opens_blank A -> opens_blank B ->
  String.append K A = String.append kind B ->
  A = B.
Proof.
  intros HK Hkind (a & A' & -> & Ha) (b & B' & -> & Hb) Heq.
  assert (Hu : forall c, c = "."%char \/ Text.is_space c = true ->
                 Text.lower_char c <> "u"%char).
  { intros c [->|Hc]; [vm_compute; congruence|].
    destruct (space_facts c Hc) as (-> & _). intros ->. vm_compute in Hc. congruence. }
  destruct HK as [HK|[HK|HK]], Hkind as [Hkind|[Hkind|Hkind]];
    repeat (let c := fresh "c" in destruct K as [|c K]; try discriminate HK);
    repeat (let c := fresh "c" in destruct kind as [|c kind]; try discriminate Hkind);
    cbn [String.append] in Heq; injection Heq; intros; subst;
    simpl in HK, Hkind; try done.
  all: injection HK; injection Hkind; intros; subst.
  all: try congruence.
  all: try (exfalso; eapply Hu; [|eassumption]; eauto; fail).
Qed.

Lemma opens_blank_dot_ws (D W X : string) :
  D = EmptyString \/ D = "." ->
  W <> EmptyString -> all_chars Text.is_space W = true ->
  opens_blank (String.append D (String.append W X)).
Proof.
  intros HD HW Hsp. destruct W as [|w W]; [done|].
  simpl in Hsp. apply andb_true_iff in Hsp as [Hw _].
  destruct HD as [-> | ->].
  - exists w, (String.append W X). split; [done|by right].
  - exists "."%char, (String.append (String w W) X). split; [done|by left].
Qed.

Lemma si_dot_align (D dot W ws X Y : string) :
  D = EmptyString \/ D = "." -> dot = EmptyString \/ dot = "." ->
  W <> EmptyString -> all_chars Text.is_space W = true ->
  ws <> EmptyString -> all_chars Text.is_space ws = true ->
  String.append D (String.append W X) = String.append dot (String.append ws Y) ->
  String.append W X = String.append ws Y.
Proof.
  intros HD Hdot HW HWs Hws Hwss Heq.
  destruct W as [|w W]; [done|]. destruct ws as [|v ws]; [done|].
  simpl in HWs, Hwss.
  apply andb_true_iff in HWs as [Hw _]. apply andb_true_iff in Hwss as [Hv _].
  destruct (space_facts w Hw) as (_ & _ & Hwdot & _).
  destruct (space_facts v Hv) as (_ & _ & Hvdot & _).
  destruct HD as [-> | ->], Hdot as [-> | ->]; cbn [String.append] in Heq.
  - done.
  - injection Heq as -> _. done.
  - injection Heq as <- _. done.
  - injection Heq as -> Heq. rewrite !append_cons. by rewrite Heq.
Qed.

Lemma opens_number (S N X : string) :
  S = EmptyString \/ S = "s" \/ S = "S" ->
  N <> EmptyString -> all_chars Text.is_digit N = true ->
  exists c r, String.append S (String.append N X) = String c r
              /\ Text.is_space c = false.
Proof.
  intros HS HN Hdig. destruct N as [|n N]; [done|].
  simpl in Hdig. apply andb_true_iff in Hdig as [Hn _].
  destruct (digit_facts n Hn) as (Hsp & _).
  destruct HS as [->|[->| ->]]; eexists _, _; (split; [reflexivity|done]).
Qed.

Lemma si_s_align (S sp N ds X Y : string) :
  S = EmptyString \/ S = "s" \/ S = "S" ->
  sp = EmptyString \/ sp = "s" \/ sp = "S" ->
  N <> EmptyString -> all_chars Text.is_digit N = true ->
  ds <> EmptyString -> all_chars Text.is_digit ds = true ->
  String.append S (String.append N X) = String.append sp (String.append ds Y) ->
  String.append N X = String.append ds Y.
Proof.
  intros HS Hsp HN HNd Hds Hdsd Heq.
  destruct N as [|n N]; [done|]. destruct ds as [|d ds]; [done|].
  simpl in HNd, Hdsd.
  apply andb_true_iff in HNd as [Hn _]. apply andb_true_iff in Hdsd as [Hd _].
  destruct (digit_facts n Hn) as (_ & _ & Hns & HnS).
  destruct (digit_facts d Hd) as (_ & _ & Hds' & HdS).
  destruct HS as [->|[->| ->]], Hsp as [->|[->| ->]]; cbn [String.append] in Heq;
    try done;
    injection Heq; intros; subst; try done;
    rewrite !append_cons; congruence.
Qed.

Lemma si_rejects_paren_after_number (K D W S N W2 R : string) :
  Text.lower K = "fig" \/ Text.lower K = "figure" \/ Text.lower K = "table" ->
  D = EmptyString \/ D = "." ->
  W <> EmptyString -> all_chars Text.is_space W = true ->
  S = EmptyString \/ S = "s" \/ S = "S" ->
  N <> EmptyString -> all_chars Text.is_digit N = true ->
  W2 <> EmptyString -> all_chars Text.is_space W2 = true ->
  matches CAPTION_RE_SI
    (String.append K (String.append D (String.append W (String.append S
       (String.append N (String.append W2 (String "(" R)))))))
  = false.
Proof.
  intros HK HD HW HWs HS HN HNd HW2 HW2s.
  destruct (matches CAPTION_RE_SI _) eqn:Hm; [|done]. exfalso.
  apply matches_iff in Hm as (x & s' & m & Htext & Hm).
  apply si_matched in Hm
    as (kind & dot & ws & sp & ds & tail & -> & Hkind & Hdot & Hws & Hwss
        & Hsp & Hds & Hdsd & Htail & _).
  rewrite <- !append_assoc3 in Htext.
  (* the kind word *)
  apply si_kind_align in Htext; try done; try by apply opens_blank_dot_ws.
  (* the optional period *)
  apply si_dot_align in Htext; try done.
  (* the white space before the number *)
  destruct (opens_number S N (String.append W2 (String "(" R)) HS HN HNd)
    as (c1 & r1 & Hx & Hc1).
  destruct (opens_number sp ds (String.append tail s') Hsp Hds Hdsd)
    as (c2 & r2 & Hy & Hc2).
  rewrite Hx, Hy in Htext.
  apply (span_unique Text.is_space) in Htext as (_ & -> & ->); try done.
  rewrite <- Hx in Hy. symmetry in Hy.
  (* the S prefix and the digits *)
  apply si_s_align in Hy; try done.
  destruct W2 as [|w W2]; [done|].
  simpl in HW2s. apply andb_true_iff in HW2s as [Hw HW2s].
  destruct (space_facts w Hw) as (_ & Hwd & Hwdot & _).
  rewrite append_cons in Hy.
  destruct Htail as [->|(ws2 & c0 & -> & Hws2 & Hws2s & Hc0 & Hc0s)].
  - change (String.append "." s') with (String "."%char s') in Hy.
    apply (span_unique Text.is_digit) in Hy as (_ & -> & _); done.
  - destruct ws2 as [|v ws2]; [done|].
    simpl in Hws2s. apply andb_true_iff in Hws2s as [Hv Hws2s].
    destruct (space_facts v Hv) as (_ & Hvd & _).
    rewrite <- append_assoc3, append_cons in Hy.
    apply (span_unique Text.is_digit) in Hy as (_ & -> & Hrest); try done.
    change (String.append (String c0 EmptyString) s') with (String c0 s') in Hrest.
    apply (span_unique Text.is_space) in Hrest as (_ & <- & _); done.
Qed.

(** X23. The supplementary caption grammar rejects every text in
    which the number is followed by white space and an opening
    parenthesis ("Figure S1 (a) shows", "Table 2 (left)"), whatever the
    case of the word, with or without the period and the S prefix: no
    caption is made of a block whose stripped text reads so. *)
Theorem X_si_rejects_inline_reference
        (K D W S N W2 R : string) (page_num : nat) (b : Block) :
  Text.lower K = "fig" \/ Text.lower K = "figure" \/ Text.lower K = "table" ->
  D = EmptyString \/ D = "." ->
  W <> EmptyString -> all_chars Text.is_space W = true ->
  S = EmptyString \/ S = "s" \/ S = "S" ->
  N <> EmptyString -> all_chars Text.is_digit N = true ->
  W2 <> EmptyString -> all_chars Text.is_space W2 = true ->
  Text.strip (b4 b)
  = String.append K (String.append D (String.append W (String.append S
      (String.append N (String.append W2 (String "(" R)))))) ->
  matches CAPTION_RE_SI (Text.strip (b4 b)) = false
  /\ caption_of_block true page_num b = None.
Proof.
  intros HK HD HW HWs HS HN HNd HW2 HW2s Htext.
  pose proof (si_rejects_paren_after_number K D W S N W2 R
                HK HD HW HWs HS HN HNd HW2 HW2s) as Hno.
  rewrite <- Htext in Hno. split; [exact Hno|].
  unfold caption_of_block, matches in *. simpl caption_re_of.
  by destruct (match_ CAPTION_RE_SI (Text.strip (b4 b))).
Qed.

(** ** Bottom boundary *)

(** X24. In main mode the region ends 3 units above the caption
    top.  In supplementary mode it ends at least 2 units below the
    caption top and, for a caption top of -5 or more, at most 7 units
    below it: the region can reach into the caption's own rectangle, by
    no more than 7 units. *)
Theorem X_bottom_boundary_range page (cap_top_y : Z) :
  clip_bottom page cap_top_y false = cap_top_y - 3
  /\ cap_top_y + 2 <= clip_bottom page cap_top_y true
  /\ (-5 <= cap_top_y -> clip_bottom page cap_top_y true <= cap_top_y + 7).
Proof.
  split; [done|]. unfold clip_bottom. simpl caption_re_of.
  destruct (get_last_content_bottom_spec page cap_top_y CAPTION_RE_SI)
    as (Hge & _ & Hex).
  split; [lia|]. intros Hcap.
  destruct Hex as [->|(b & _ & Hb & ->)]; [lia|].
  unfold content_block_above in Hb.
  apply andb_true_iff in Hb as [_ Hb]. apply Z.leb_le in Hb. lia.
Qed.
End Properties.

(** * Evaluations on sample inputs *)

(** ** The caption grammar *)

Example main_matches_figure1 : matches CAPTION_RE_MAIN "Figure 1." = true.
Proof. reflexivity. Qed.

Example main_groups_table :
  option_map (fun cs => (group 1 cs, group 2 cs))
             (match_ CAPTION_RE_MAIN "TABLE  12 Results")
  = Some ("TABLE", "12").
Proof. reflexivity. Qed.

Example main_rejects_inline : matches CAPTION_RE_MAIN "Figure 1a shows" = false.
Proof. reflexivity. Qed.

Example si_matches_fig : matches CAPTION_RE_SI "Fig. S1. Spectra" = true.
Proof. reflexivity. Qed.

Example si_groups_figure :
  option_map (fun cs => (group 1 cs, group 2 cs))
             (match_ CAPTION_RE_SI "Figure s12 Spectra")
  = Some ("Figure", "s12").
Proof. reflexivity. Qed.

Example si_rejects_paren : matches CAPTION_RE_SI "Figure S1 (a) shows" = false.
Proof. reflexivity. Qed.

Example section_titles :
  matches SI_SECTION_RE "Supplementary Note 3" = true
  /\ matches SI_SECTION_RE "S2. Methods" = true
  /\ matches SI_SECTION_RE "Some text" = false.
Proof. repeat split; reflexivity. Qed.

Example si_labels :
  map cap_label
      (find_all_captions
         [Samples.plain_page; Samples.table_page] true)
  = ["stable1"; "sfigure2"].
Proof. reflexivity. Qed.

Example si_skips_page_0 :
  find_all_captions [Samples.table_page; Samples.plain_page] true = [].
Proof. reflexivity. Qed.

(** ** The trimmer *)

Example trim_ruled :
  trim_whitespace Samples.gray_id (Samples.ruled_img 30 40)
  = Some (Samples.ruled_img 30 23).
Proof. vm_compute. reflexivity. Qed.

Example trim_white :
  trim_whitespace Samples.gray_id (Samples.white_img 30 40) = None.
Proof. vm_compute. reflexivity. Qed.

(** A buffer that is dark throughout is consumed by the first pass. *)
Example trim_dark :
  trim_whitespace Samples.gray_id (repeat (repeat 0 40%nat) 30%nat) = None.
Proof. vm_compute. reflexivity. Qed.

(** ** The run on the two-page document *)

Example run_toc_doc :
  exists fs,
    run Samples.gray_id Samples.toc_doc "out" false ∅
    = Returned ([entry_of "out" Samples.body_caption], fs,
                [MsgMode false; MsgSkipTooSmall "figure1" 1;
                 MsgImage "figure1" 23 30; MsgManifest "out/manifest.json"])
    /\ fs !! "out/figure1.png" = Some (PngFile (Samples.ruled_img 30 23))
    /\ fs !! "out/manifest.json"
       = Some (JsonFile [entry_of "out" Samples.body_caption]).
Proof.
  eexists. split; [vm_compute; reflexivity|]. split; vm_compute; reflexivity.
Qed.

(** * Witnesses and counterexamples *)

(** A page with a solid rule at 300 and a dashed rule below the caption,
    at 750, fits the scenario. *)
Lemma C8_single_caption_scenario_witness :
  (forall d, d ∈ [Samples.solid_line 300; Samples.dashed_line 750] ->
     is_dashed d = true -> y0 (drect d) <= 10 \/ 700 <= y0 (drect d))
  /\ fig_top_y (Samples.scenario_page [Samples.solid_line 300; Samples.dashed_line 750])
               700 None false = 10
  /\ height (clip (Samples.scenario_page
                     [Samples.solid_line 300; Samples.dashed_line 750])
                  Samples.scenario_caption None false) = 687.
Proof.
  assert (H : forall d, d ∈ [Samples.solid_line 300; Samples.dashed_line 750] ->
                is_dashed d = true -> y0 (drect d) <= 10 \/ 700 <= y0 (drect d)).
  { intros d Hd Hdash. apply elem_of_cons in Hd as [->|Hd].
    - vm_compute in Hdash. discriminate Hdash.
    - apply list_elem_of_singleton in Hd. subst d. right. vm_compute. congruence. }
  split; [exact H|].
  pose proof (C8_single_caption_scenario 0 600
                [Samples.solid_line 300; Samples.dashed_line 750]
                Samples.render_ruled H) as (_ & Ht & _ & _ & _ & Hh).
  split; [exact Ht | exact Hh].
Defined.

(** C8, as stated, fails when a dashed rule is drawn on the page: with
    the single block "Figure 1.", no previous caption and no header
    keyword, a dashed rule at Y = 100 puts the top at 102 and makes the
    region 595 high. *)
Lemma C8_dashed_rule_counterexample :
  let page := Samples.scenario_page [Samples.dashed_line 100] in
  rect page = mkRect 0 0 600 800
  /\ get_text_blocks page = [mkBlock 50 700 500 720 "Figure 1."]
  /\ header_block (mkBlock 50 700 500 720 "Figure 1.") = false
  /\ find_all_captions [page] false = [Samples.scenario_caption]
  /\ fig_top_y page 700 None false = 102
  /\ y1 (clip page Samples.scenario_caption None false) = 697
  /\ height (clip page Samples.scenario_caption None false) = 595
  /\ fig_top_y page 700 None false <> 10
  /\ height (clip page Samples.scenario_caption None false) <> 687.
Proof. vm_compute. repeat split; congruence. Qed.

(** C5, as stated, fails when a content block ends below the caption top:
    the axis label ending at 704 gives a boundary of 706, not
    max(700 + 2, 704) = 704. *)
Lemma C5_claimed_bottom_counterexample :
  let caption := mkCaption 1 "sfigure1" "figure" (mkRect 50 700 500 720)
                           "Fig. S1. Spectra" in
  get_last_content_bottom Samples.axis_page 700 CAPTION_RE_SI = 704
  /\ y1 (clip Samples.axis_page caption None true) = 706
  /\ claimed_si_bottom Samples.axis_page 700 = 704
  /\ y1 (clip Samples.axis_page caption None true)
     <> claimed_si_bottom Samples.axis_page 700.
Proof. vm_compute. repeat split; congruence. Qed.

(** On the page with the axis label, L is 704 and the boundary 706. *)
Lemma C5_si_bottom_boundary_witness :
  y1 (clip Samples.axis_page
           (mkCaption 1 "sfigure1" "figure" (mkRect 50 700 500 720) "Fig. S1. Spectra")
           None true)
  = Z.max 700 704 + 2.
Proof.
  exact (proj1 (C5_si_bottom_boundary Samples.axis_page
                  (mkCaption 1 "sfigure1" "figure" (mkRect 50 700 500 720)
                             "Fig. S1. Spectra") None)).
Defined.

(** C4, as stated, fails on a page with two dashed rules between the
    baseline and the caption: the rule at 100 lies strictly between 10
    and 700, yet the top resolves to 202. *)
Lemma C4_two_rules_counterexample :
  Samples.dashed_line 100 ∈ get_drawings Samples.two_rules_page
  /\ is_dashed (Samples.dashed_line 100) = true
  /\ base_top Samples.two_rules_page None < y0 (drect (Samples.dashed_line 100)) < 700
  /\ fig_top_y Samples.two_rules_page 700 None false = 202
  /\ fig_top_y Samples.two_rules_page 700 None false
     <> y0 (drect (Samples.dashed_line 100)) + 2.
Proof.
  split; [apply elem_of_cons; by left|].
  vm_compute. repeat split; congruence.
Qed.

(** The rule at 200 is the one nearest above the caption. *)
Lemma C4_dashed_separator_top_witness :
  fig_top_y Samples.two_rules_page 700 None false
  = y0 (drect (Samples.dashed_line 200)) + 2.
Proof.
  apply (C4_dashed_separator_top Samples.two_rules_page 700 None
           (Samples.dashed_line 200)).
  - apply elem_of_cons; right. apply elem_of_cons; by left.
  - reflexivity.
  - vm_compute. split; reflexivity.
  - intros d' Hd' _ _.
    apply elem_of_cons in Hd' as [->|Hd'].
    + vm_compute. congruence.
    + apply list_elem_of_singleton in Hd'. subst d'. vm_compute. congruence.
Defined.

(** The contents page fails (its region is 7 units high), the page of the
    figure succeeds, and the single entry comes from the latter. *)
Lemma C1_one_entry_per_label_witness :
  cap_label Samples.toc_caption = cap_label Samples.body_caption
  /\ extract_figure Samples.gray_id Samples.toc_doc Samples.toc_caption
       None (ZOOM, ZOOM) false = Returned None
  /\ exists st1 st2,
       loop_body Samples.gray_id Samples.toc_doc "out" (ZOOM, ZOOM) false
                 Samples.state0 Samples.toc_caption = Returned st1
       /\ extracted_labels st1 = extracted_labels Samples.state0
       /\ loop_body Samples.gray_id Samples.toc_doc "out" (ZOOM, ZOOM) false
                    st1 Samples.body_caption = Returned st2
       /\ manifest st2
          = manifest Samples.state0 ++ [entry_of "out" Samples.body_caption]
       /\ cap_label Samples.body_caption ∈ extracted_labels st2
       /\ files st2 !! m_path (entry_of "out" Samples.body_caption)
          = Some (PngFile (Samples.ruled_img 30 23)).
Proof.
  split; [reflexivity|].
  assert (Hfail : extract_figure Samples.gray_id Samples.toc_doc Samples.toc_caption
            (prev_cap_bottom_by_page Samples.state0 !! cap_page Samples.toc_caption)
            (ZOOM, ZOOM) false = Returned None) by (vm_compute; reflexivity).
  split; [exact Hfail|].
  apply (proj1 (proj2 (proj2 (proj2
           (C1_one_entry_per_label Samples.gray_id Samples.toc_doc "out" false ∅
              (ZOOM, ZOOM) Samples.state0 Samples.toc_caption Samples.body_caption)))))
    with (cap_bottom := 720).
  - reflexivity.
  - apply not_elem_of_empty.
  - exact Hfail.
  - vm_compute. reflexivity.
Defined.

(** The caption of the contents page is skipped for want of a region. *)
Lemma C9_skip_leaves_state_witness :
  exists st',
    loop_body Samples.gray_id Samples.toc_doc "out" (ZOOM, ZOOM) false
              Samples.state0 Samples.toc_caption = Returned st'
    /\ manifest st' = manifest Samples.state0
    /\ extracted_labels st' = extracted_labels Samples.state0
    /\ prev_cap_bottom_by_page st' = prev_cap_bottom_by_page Samples.state0
    /\ files st' = files Samples.state0.
Proof.
  apply (C9_skip_leaves_state Samples.gray_id Samples.toc_doc "out" (ZOOM, ZOOM)
           false Samples.state0 Samples.toc_caption).
  right. vm_compute. reflexivity.
Defined.



(** By contrast, when a caption is found and skipped, the manifest file is
    written and holds the empty array. *)
Lemma run_writes_manifest_after_skip :
  exists fs out,
    run Samples.gray_id [Samples.toc_page] "out" false ∅
    = Returned ([], fs, out)
    /\ fs !! path_join "out" "manifest.json" = Some (JsonFile []).
Proof.
  eexists _, _. split; [vm_compute; reflexivity|].
  vm_compute. reflexivity.
Qed.




(** C7, as stated, fails on containment in the page: every block of the
    page lies within its height of 800, the region above the caption is
    rendered, and its bottom is 801. *)
Lemma C7_below_page_counterexample :
  let r := clip Samples.foot_page Samples.foot_caption None true in
  Forall (fun b => 0 <= b1 b /\ b3 b <= y1 (rect Samples.foot_page))
         (get_text_blocks Samples.foot_page)
  /\ 20 <= height r /\ 20 <= width r
  /\ above_image Samples.gray_id Samples.foot_page (ZOOM, ZOOM) r
     = Some (Samples.ruled_img 30 23)
  /\ y1 r = 801
  /\ ~ inside_page r Samples.foot_page.
Proof.
  split; [repeat constructor; vm_compute; congruence|].
  split; [vm_compute; congruence|]. split; [vm_compute; congruence|].
  split; [vm_compute; reflexivity|]. split; [vm_compute; reflexivity|].
  intros (_ & _ & _ & H). vm_compute in H. congruence.
Qed.

Lemma C7_rendered_region_witness :
  let r := clip Samples.foot_page Samples.foot_caption None true in
  x0 r = x0 (rect Samples.foot_page) + 3 /\ x1 r = x1 (rect Samples.foot_page) - 3
  /\ x0 (rect Samples.foot_page) < x0 r /\ x1 r < x1 (rect Samples.foot_page)
  /\ y0 r < y1 r /\ x0 r < x1 r.
Proof.
  apply (C7_rendered_region Samples.foot_page Samples.foot_caption None true).
  - left. reflexivity.
  - vm_compute. congruence.
  - vm_compute. congruence.
Defined.

(** C3, as stated, fails on where the region below ends.  On the first
    page there is no further table caption below the table title, so the
    words of the claim give page-bottom - 5 = 795, while the region stops
    above the figure caption, at 597.  On the second page the next table
    title starts 3 units below the first, which the words of the claim
    take as the end (78 - 3 = 75), while the region runs to page-bottom
    - 5 = 795, a caption starting within 5 units being passed over. *)
Lemma C3_next_caption_counterexample :
  (above_image Samples.gray_id Samples.table_page (ZOOM, ZOOM)
               (clip Samples.table_page Samples.table_caption None true) = None
   /\ extract_figure_on Samples.gray_id Samples.table_page Samples.table_caption
                        None (ZOOM, ZOOM) true
      = Some (Samples.ruled_img 30 23, 75)
   /\ y1 (below_clip Samples.table_page Samples.table_caption true) = 597
   /\ claimed_below_bottom Samples.table_page Samples.table_caption true = 795
   /\ y1 (below_clip Samples.table_page Samples.table_caption true)
      <> claimed_below_bottom Samples.table_page Samples.table_caption true)
  /\ (above_image Samples.gray_id Samples.stacked_page (ZOOM, ZOOM)
                  (clip Samples.stacked_page Samples.table_caption None true) = None
      /\ extract_figure_on Samples.gray_id Samples.stacked_page Samples.table_caption
                           None (ZOOM, ZOOM) true
         = Some (Samples.ruled_img 30 23, 75)
      /\ y1 (below_clip Samples.stacked_page Samples.table_caption true) = 795
      /\ claimed_below_bottom Samples.stacked_page Samples.table_caption true = 75
      /\ y1 (below_clip Samples.stacked_page Samples.table_caption true)
         <> claimed_below_bottom Samples.stacked_page Samples.table_caption true).
Proof. vm_compute. repeat split; congruence. Qed.

(** The region above the table title renders white and trims to
    nothing; the region below it ends 3 units above the figure caption. *)
Lemma C3_below_caption_fallback_witness :
  above_image Samples.gray_id Samples.table_page (ZOOM, ZOOM)
              (clip Samples.table_page Samples.table_caption None true) = None
  /\ y0 (below_clip Samples.table_page Samples.table_caption true) = 75 + 3
  /\ y1 (below_clip Samples.table_page Samples.table_caption true) = 600 - 3
  /\ extract_figure_on Samples.gray_id Samples.table_page Samples.table_caption
                       None (ZOOM, ZOOM) true
     = Some (Samples.ruled_img 30 23, 75).
Proof.
  assert (Habove : above_image Samples.gray_id Samples.table_page (ZOOM, ZOOM)
            (clip Samples.table_page Samples.table_caption None true) = None)
    by (apply above_image_trims_empty; vm_compute; reflexivity).
  split; [exact Habove|].
  destruct (C3_below_caption_fallback Samples.gray_id Samples.table_page
              Samples.table_caption None (ZOOM, ZOOM) Habove)
    as (_ & Hy0 & _ & _ & Hnext & Hres & _).
  split; [exact Hy0|]. split.
  - apply (Hnext (mkBlock 50 600 500 615 "Fig. S2. Spectra")).
    + apply elem_of_cons; right. apply elem_of_cons; by left.
    + vm_compute. reflexivity.
    + intros b' Hb' Hf.
      apply elem_of_cons in Hb' as [->|Hb'].
      * vm_compute in Hf. discriminate Hf.
      * apply list_elem_of_singleton in Hb'. subst b'. vm_compute. congruence.
  - rewrite Hres. vm_compute. reflexivity.
Defined.

Lemma ruled_img_rectangular : rectangular (Samples.ruled_img 30 40).
Proof. repeat constructor. Defined.

Lemma C10_trim_returns_crop_witness :
  exists r0 r1 c0 c1 : nat,
    (r0 < r1 <= shape0 (Samples.ruled_img 30 40))%nat
    /\ (c0 < c1 <= shape1 (Samples.ruled_img 30 40))%nat
    /\ Samples.ruled_img 30 23 = crop r0 r1 c0 c1 (Samples.ruled_img 30 40)
    /\ shape0 (Samples.ruled_img 30 23) = (r1 - r0)%nat
    /\ Forall (fun row => length row = (c1 - c0)%nat) (Samples.ruled_img 30 23)
    /\ (forall i j, (i < r1 - r0)%nat -> (j < c1 - c0)%nat ->
          pixel_at (Samples.ruled_img 30 23) i j
          = pixel_at (Samples.ruled_img 30 40) (r0 + i) (c0 + j))
    /\ (shape0 (Samples.ruled_img 30 23) <= shape0 (Samples.ruled_img 30 40))%nat
    /\ (shape1 (Samples.ruled_img 30 23) <= shape1 (Samples.ruled_img 30 40))%nat.
Proof.
  apply (C10_trim_returns_crop Samples.gray_id (Samples.ruled_img 30 40)
           (Samples.ruled_img 30 23) ruled_img_rectangular).
  vm_compute. reflexivity.
Defined.

(** * Witnesses of the further properties *)

Lemma lookup_repeat {A} (x : A) (n k : nat) :
  (k < n)%nat -> repeat x n !! k = Some x.
Proof.
  revert k. induction n as [|n IH]; intros k Hk; [lia|].
  destruct k as [|k]; [done|]. simpl. apply IH. lia.
Defined.

Lemma lookup_repeat_inv {A} (x y : A) (n k : nat) :
  repeat x n !! k = Some y -> y = x.
Proof.
  intros Hk. apply list_elem_of_lookup_2, list_elem_of_In in Hk.
  by apply repeat_spec in Hk.
Defined.

(** The pixels of the ruled buffer: black in column 0, white elsewhere. *)
Lemma ruled_img_pixel (h w i j : nat) (p : Z) :
  pixel_at (Samples.ruled_img h w) i j = Some p ->
  (j = 0%nat /\ p = 0) \/ ((0 < j)%nat /\ p = 255).
Proof.
  unfold pixel_at, Samples.ruled_img.
  destruct (repeat _ h !! i) as [row|] eqn:Hrow; [|done].
  apply lookup_repeat_inv in Hrow. subst row.
  destruct j as [|j]; simpl.
  - intros [= <-]. by left.
  - intros Hp. apply lookup_repeat_inv in Hp. right. split; [lia|done].
Defined.

Lemma X_pass1_cut_witness :
  (top_start_of Samples.gray_id (Samples.ruled_img 30 40)
   <= shape0 (Samples.ruled_img 30 40))%nat.
Proof. exact (proj1 (X_pass1_cut Samples.gray_id (Samples.ruled_img 30 40))). Defined.

(** A white buffer has no pixel under 245. *)
Lemma X_trim_None_iff_witness :
  trim_whitespace Samples.gray_id (Samples.white_img 30 40) = None
  /\ forall i j p,
       (top_start_of Samples.gray_id (Samples.white_img 30 40) <= i)%nat ->
       pixel_at (Samples.white_img 30 40) i j = Some p -> 245 <= Samples.gray_id p.
Proof.
  split; [vm_compute; reflexivity|].
  apply (proj1 (X_trim_None_iff Samples.gray_id (Samples.white_img 30 40))).
  vm_compute. reflexivity.
Defined.

(** The black buffer of 30 rows is trimmed to nothing. *)
Lemma X_trim_dark_buffer_witness :
  trim_whitespace Samples.gray_id (Samples.dark_img 30 40) = None.
Proof.
  apply (X_trim_dark_buffer Samples.gray_id (Samples.dark_img 30 40)).
  intros k Hk. exists (repeat 0 40%nat). split.
  - apply lookup_repeat. exact Hk.
  - vm_compute. reflexivity.
Defined.

Lemma X_trim_keeps_dark_pixels_witness :
  exists r0 r1 c0 c1 : nat,
    Samples.ruled_img 30 23 = crop r0 r1 c0 c1 (Samples.ruled_img 30 40)
    /\ (r1 <= shape0 (Samples.ruled_img 30 40))%nat
    /\ (c1 <= shape1 (Samples.ruled_img 30 40))%nat
    /\ forall i j p,
         (top_start_of Samples.gray_id (Samples.ruled_img 30 40) <= i)%nat ->
         pixel_at (Samples.ruled_img 30 40) i j = Some p ->
         (Samples.gray_id p < 245 -> (r0 <= i < r1)%nat /\ (c0 <= j)%nat)
         /\ (Samples.gray_id p < 220 ->
             (c0 <= j < c1)%nat
             /\ pixel_at (Samples.ruled_img 30 23) (i - r0) (j - c0) = Some p).
Proof.
  apply (X_trim_keeps_dark_pixels Samples.gray_id (Samples.ruled_img 30 40)
           (Samples.ruled_img 30 23) ruled_img_rectangular).
  vm_compute. reflexivity.
Defined.

(** Right of column 0 the ruled buffer is white: 23 columns remain. *)
Lemma X_trim_drops_white_right_witness :
  exists r0 r1 c0 c1 : nat,
    Samples.ruled_img 30 23 = crop r0 r1 c0 c1 (Samples.ruled_img 30 40)
    /\ (c1 <= 0 + 23)%nat
    /\ (shape1 (Samples.ruled_img 30 23) <= 0 + 23)%nat.
Proof.
  apply (X_trim_drops_white_right Samples.gray_id (Samples.ruled_img 30 40)
           (Samples.ruled_img 30 23) 0 ruled_img_rectangular).
  - vm_compute. reflexivity.
  - intros i j p _ Hp Hj. apply ruled_img_pixel in Hp as [[-> _]|[_ ->]].
    + inversion Hj.
    + vm_compute. congruence.
Defined.

(** The running header of the page ends at 28: the content starts at 30. *)
Lemma X_page_content_top_witness :
  get_page_content_top Samples.header_page = 28 + 2.
Proof.
  apply (proj1 (proj2 (proj2 (X_page_content_top Samples.header_page)))
           (mkBlock 40 15 560 28 "www.nature.com/scientificreports/")).
  - apply elem_of_cons; by left.
  - vm_compute. reflexivity.
  - vm_compute. reflexivity.
  - intros b' Hb' Hh. apply elem_of_cons in Hb' as [->|Hb'].
    { vm_compute. congruence. }
    apply elem_of_cons in Hb' as [->|Hb'].
    { vm_compute in Hh. discriminate Hh. }
    apply list_elem_of_singleton in Hb'. subst b'.
    vm_compute in Hh. discriminate Hh.
Defined.

(** A solid rule drawn across the page leaves the top at the baseline;
    of two dashed rules, at 100 and 200, the lower one sets it. *)
Lemma X_main_top_boundary_witness :
  fig_top_y (Samples.scenario_page [Samples.solid_line 300]) 700 None false
  = base_top (Samples.scenario_page [Samples.solid_line 300]) None
  /\ fig_top_y Samples.two_rules_page 700 None false = 200 + 2.
Proof.
  split.
  - apply (proj1 (proj2 (X_main_top_boundary
                           (Samples.scenario_page [Samples.solid_line 300]) 700 None))).
    intros d Hd Hdash. apply list_elem_of_singleton in Hd. subst d.
    vm_compute in Hdash. discriminate Hdash.
  - destruct (proj2 (proj2 (X_main_top_boundary Samples.two_rules_page 700 None))
                (Samples.dashed_line 200))
      as (d' & Hd' & _ & Hrange & _ & Htop).
    + apply elem_of_cons. right. apply elem_of_cons. by left.
    + reflexivity.
    + vm_compute. split; reflexivity.
    + rewrite Htop. apply elem_of_cons in Hd' as [->|Hd'].
      { exfalso. destruct Hrange as [Hle _]. vm_compute in Hle. by apply Hle. }
      apply list_elem_of_singleton in Hd'. subst d'. reflexivity.
Defined.

Lemma X_top_not_above_baseline_witness :
  330 + 3 <= fig_top_y Samples.header_page 700 (Some 330) false.
Proof.
  apply (proj1 (proj2 (X_top_not_above_baseline Samples.header_page 700
                         (Some 330) false)) 330 eq_refl).
Defined.

(** The section title ends at 55, below the baseline of 10. *)
Lemma X_si_section_title_excluded_witness :
  55 <= fig_top_y Samples.si_text_page 700 None true
  /\ (base_top Samples.si_text_page None < 55 ->
      55 + 2 <= fig_top_y Samples.si_text_page 700 None true).
Proof.
  apply (X_si_section_title_excluded Samples.si_text_page 700 None
           (mkBlock 50 40 550 55 "Supplementary Note 1")).
  - apply elem_of_cons; by left.
  - vm_compute. reflexivity.
  - vm_compute. reflexivity.
Defined.

(** With the paragraphs ending at 300 the top moves to 303; with an axis
    label ending 20 units above the caption it stays at 57, paragraphs
    included. *)
Lemma X_si_body_text_gap_witness :
  fig_top_y Samples.si_text_page 700 None true = Z.max 57 (300 + 3)
  /\ fig_top_y Samples.si_label_page 700 None true = 57.
Proof.
  split.
  - apply (proj1 (proj2 (proj2 (X_si_body_text_gap Samples.si_text_page 700 None)))).
    + vm_compute. reflexivity.
    + vm_compute. reflexivity.
  - apply (proj2 (proj2 (proj2 (X_si_body_text_gap Samples.si_label_page 700 None)))).
    right. vm_compute. congruence.
Defined.

Lemma X_bottom_boundary_range_witness :
  clip_bottom Samples.axis_page 700 true <= 700 + 7.
Proof.
  apply (proj2 (proj2 (X_bottom_boundary_range Samples.axis_page 700))).
  vm_compute. congruence.
Defined.

(** The 20-high region of the edge page gives a 30 x 23 image. *)
Lemma X_extracted_image_witness :
  45 = y1 (cap_rect Samples.edge_caption)
  /\ (20 <= shape0 (Samples.ruled_img 30 23))%nat
  /\ (20 <= shape1 (Samples.ruled_img 30 23))%nat.
Proof.
  destruct (X_extracted_image Samples.gray_id Samples.edge_page Samples.edge_caption
              None (ZOOM, ZOOM) false (Samples.ruled_img 30 23) 45)
    as (Hb & H0 & H1 & _).
  - vm_compute. reflexivity.
  - split; [exact Hb|]. split; [exact H0|exact H1].
Defined.

(** In supplementary mode the previous bottom of a page can drop: on
    the page whose blocks come in the order "Fig. S1" (500 to 520),
    "Table S1" (200 to 220), "Fig. S2" (700 to 720), the table is
    extracted through the region below its title, the previous bottom
    goes from 520 to 220, and the region of "Fig. S2" starts at 223. *)
Example si_previous_bottom_can_drop :
  exists c1 c2 c3 st1 st2,
    find_all_captions [Samples.plain_page; Samples.unordered_page] true = [c1; c2; c3]
    /\ loop_body Samples.gray_id [Samples.plain_page; Samples.unordered_page] "out"
                 (ZOOM, ZOOM) true Samples.state0 c1 = Returned st1
    /\ prev_cap_bottom_by_page st1 !! 1%nat = Some 520
    /\ loop_body Samples.gray_id [Samples.plain_page; Samples.unordered_page] "out"
                 (ZOOM, ZOOM) true st1 c2 = Returned st2
    /\ prev_cap_bottom_by_page st2 !! 1%nat = Some 220
    /\ y0 (clip Samples.unordered_page c3
                (prev_cap_bottom_by_page st2 !! 1%nat) true) = 223.
Proof.
  eexists _, _, _, _, _.
  split; [vm_compute; reflexivity|].
  split; [vm_compute; reflexivity|].
  split; [vm_compute; reflexivity|].
  split; [vm_compute; reflexivity|].
  split; vm_compute; reflexivity.
Qed.

(** After "Figure 1" (bottom 330) of the page with the running header,
    the region of "Figure 2" starts at 333 or below, also once "Figure 2"
    itself has been processed. *)
Lemma X_next_region_below_witness :
  exists st1,
    loop_body Samples.gray_id [Samples.header_page] "out" (ZOOM, ZOOM) false
              Samples.state0 Samples.header_caption1 = Returned st1
    /\ prev_cap_bottom_by_page st1 !! 0%nat = Some 330
    /\ 330 + 3
       <= y0 (clip Samples.header_page Samples.header_caption2
                   (prev_cap_bottom_by_page st1 !! 0%nat) false)
    /\ match loop Samples.gray_id [Samples.header_page] "out" (ZOOM, ZOOM) false
                  [Samples.header_caption2] st1 with
       | Returned st2 =>
           330 + 3
           <= y0 (clip Samples.header_page Samples.header_caption2
                       (prev_cap_bottom_by_page st2 !! 0%nat) false)
       | IndexError => False
       end.
Proof.
  destruct (X_next_region_below Samples.gray_id [Samples.header_page] "out"
              (ZOOM, ZOOM) false Samples.state0 Samples.header_caption1
              (Samples.ruled_img 30 23) 330)
    as (st1 & Hstep & Hprev & _ & Hnext & Hlater).
  - apply not_elem_of_empty.
  - vm_compute. reflexivity.
  - exists st1. split; [exact Hstep|]. split; [exact Hprev|].
    split; [exact (Hnext Samples.header_page Samples.header_caption2 eq_refl)|].
    destruct (loop Samples.gray_id [Samples.header_page] "out" (ZOOM, ZOOM) false
                   [Samples.header_caption2] st1) as [st2|] eqn:Hloop.
    + refine (proj1 (Hlater eq_refl [Samples.header_caption2] st2 _ Hloop
                            Samples.header_page Samples.header_caption2 eq_refl)).
      apply Forall_cons. split; [vm_compute; congruence|apply Forall_nil_2].
    + destruct (loop_returns Samples.gray_id [Samples.header_page] "out"
                  (ZOOM, ZOOM) false [Samples.header_caption2] st1) as (st2 & Hst2).
      { intros cap Hcap. apply list_elem_of_singleton in Hcap. subst cap.
        by eexists. }
      rewrite Hst2 in Hloop. discriminate Hloop.
Defined.

Lemma X_manifest_subsequence_witness :
  exists m fs out,
    run Samples.gray_id Samples.toc_doc "out" false ∅ = Returned (m, fs, out)
    /\ m `sublist_of` map (entry_of "out") (find_all_captions Samples.toc_doc false)
    /\ (length m <= length (find_all_captions Samples.toc_doc false))%nat.
Proof. exact (X_manifest_subsequence Samples.gray_id Samples.toc_doc "out" false ∅). Defined.

Lemma X_manifest_entries_have_files_witness :
  exists m fs out,
    run Samples.gray_id Samples.toc_doc "out" false ∅ = Returned (m, fs, out)
    /\ forall e, e ∈ m ->
         m_path e = path_join "out" (String.append (m_label e) ".png")
         /\ exists img, fs !! m_path e = Some (PngFile img)
                        /\ (20 <= shape0 img)%nat /\ (20 <= shape1 img)%nat.
Proof.
  exact (X_manifest_entries_have_files Samples.gray_id Samples.toc_doc "out" false ∅).
Defined.


Lemma X_loop_only_adds_witness :
  match loop Samples.gray_id Samples.toc_doc "out" (ZOOM, ZOOM) false
             [Samples.toc_caption; Samples.body_caption] Samples.state0 with
  | Returned st' =>
      manifest Samples.state0 `prefix_of` manifest st'
      /\ extracted_labels Samples.state0 ⊆ extracted_labels st'
      /\ (forall path, is_Some (files Samples.state0 !! path) ->
                       is_Some (files st' !! path))
      /\ stdout Samples.state0 `prefix_of` stdout st'
  | IndexError => False
  end.
Proof.
  destruct (loop Samples.gray_id Samples.toc_doc "out" (ZOOM, ZOOM) false
              [Samples.toc_caption; Samples.body_caption] Samples.state0)
    as [st'|] eqn:Hloop.
  - exact (X_loop_only_adds Samples.gray_id _ _ _ _ _ _ _ Hloop).
  - vm_compute in Hloop. discriminate Hloop.
Defined.

Lemma X_locked_labels_are_manifest_labels_witness :
  match loop Samples.gray_id Samples.toc_doc "out" (ZOOM, ZOOM) false
             [Samples.toc_caption; Samples.body_caption] Samples.state0 with
  | Returned st' =>
      forall l, l ∈ extracted_labels st' <-> l ∈ map m_label (manifest st')
  | IndexError => False
  end.
Proof.
  destruct (loop Samples.gray_id Samples.toc_doc "out" (ZOOM, ZOOM) false
              [Samples.toc_caption; Samples.body_caption] Samples.state0)
    as [st'|] eqn:Hloop.
  - apply (X_locked_labels_are_manifest_labels Samples.gray_id _ _ _ _ _ _ _
             Samples.toc_caption) in Hloop; [exact (proj1 Hloop)|].
    intros l. split; intros Hl.
    + exact (False_ind _ (not_elem_of_empty (C := gset string) l Hl)).
    + exact (False_ind _ (proj1 (elem_of_nil l) Hl)).
  - vm_compute in Hloop. discriminate Hloop.
Defined.

Lemma scenario_caption_detected :
  Samples.scenario_caption ∈ find_all_captions [Samples.scenario_page []] false.
Proof. apply list_elem_of_singleton. reflexivity. Defined.


Lemma X_detected_captions_witness :
  (cap_page Samples.scenario_caption < length [Samples.scenario_page []])%nat
  /\ matches (caption_re_of false) (cap_caption_text Samples.scenario_caption) = true.
Proof.
  destruct (proj2 (X_detected_captions [Samples.scenario_page []] false
                     Samples.scenario_caption) scenario_caption_detected)
    as (Hlt & _ & Hm & _).
  split; [exact Hlt|exact Hm].
Defined.

Lemma X_captions_in_page_order_witness :
  StronglySorted (fun c1 c2 => (cap_page c1 <= cap_page c2)%nat)
                 (find_all_captions Samples.toc_doc false).
Proof. exact (X_captions_in_page_order Samples.toc_doc false). Defined.




(** "Figure S1 (a) shows the spectra" is no supplementary caption. *)
Lemma X_si_rejects_inline_reference_witness :
  matches CAPTION_RE_SI
          (Text.strip (b4 (mkBlock 50 100 550 130 "Figure S1 (a) shows the spectra")))
  = false
  /\ caption_of_block true 1
       (mkBlock 50 100 550 130 "Figure S1 (a) shows the spectra") = None.
Proof.
  apply (X_si_rejects_inline_reference "Figure" "" " " "S" "1" " "
           "a) shows the spectra" 1
           (mkBlock 50 100 550 130 "Figure S1 (a) shows the spectra"));
    try reflexivity; try discriminate; auto.
Defined.
